(** * clients::http::Request — the asynchronous HTTP request engine

    A shallow embedding of [core/src/clients/http/request.cpp]: the retry
    state machine ([async_perform], [perform_request], [on_retry],
    [on_retry_timer], [on_completed]), the aggregate deadline
    ([max_retry_time], [complete_timeout]), the header parser
    ([rfind_not_space], [parse_header], [on_header]) and the PUT body feeder
    ([SetPutMethodData], [PutMethodReadCallback]).

    Conventions.
    - C++ integers are [Z]; narrowing to [short] and [size_t] arithmetic
      have their wrap-around written out ([to_short], [to_size_t]).
    - [double] is Rocq's primitive binary64 [float].
    - A [char*] into a buffer is an offset into a [list ascii]; a null
      pointer is [None].
    - [std::error_code] is its integer value; it converts to [true] exactly
      when the value is non-zero.
    - Calls on external collaborators (promise, statistics sink, span, the
      transfer handle, the timer) are recorded in the fields that stand for
      them, in call order. *)

From Stdlib Require Import ZArith Lia Ascii String List Floats.
From Stdlib Require QArith Qround.
From stdpp Require Import base gmap strings list.

Open Scope Z_scope.

(** ** Machine integers *)

(** Conversion of an [int] to [short] (16 bits, two's complement). *)
Definition to_short (z : Z) : Z := (z + 32768) mod 65536 - 32768.

(** Arithmetic in [size_t] (64 bits, unsigned). *)
Definition to_size_t (z : Z) : Z := z mod 2 ^ 64.

Definition SHRT_MAX : Z := 32767.

(** ** Constants of the anonymous namespace *)

(** Maximum number of redirects *)
Definition kMaxRedirectCount : Z := 10.
(** Max number of retries during calculating timeout *)
Definition kMaxRetryInTimeout : Z := 5.
(** Base time for exponential backoff algorithm *)
Definition kEBBaseTime : Z := 25.
(** Least http code that we treat as bad for exponential backoff algorithm *)
Definition kLeastBadHttpCodeForEB : Z := 500.

(** ** std::error_code *)

Definition error_code := Z.

(** [explicit operator bool]: true iff [value() != 0]. *)
Definition is_error (err : error_code) : bool := negb (err =? 0).

(** ** Data *)

Definition NUL : ascii := "000"%char.
Definition LF : ascii := "010"%char.
Definition CR : ascii := "013"%char.
Definition SP : ascii := " "%char.
Definition COLON : ascii := ":"%char.

(** Modelled from the spec: the [Response] class is declared in a header
    that is not part of the sources at hand.  It holds the accumulated header
    mapping (insertion replaces the prior value of the same key) and the
    body sink the transfer engine writes to; it is built from the transfer
    handle ([std::make_shared<Response>(easy_)]) and reads its status code
    from it. *)
Record Response := mkResponse {
  headers : gmap string string;
  sink_stream : list ascii
}.

(** The completion handlers that [perform_request] can be given. *)
Inductive handler_type := Handler_on_completed | Handler_on_retry.

(** The part of [curl::easy] that the request engine reads back or that
    decides which callback the engine may deliver next. *)
Record EasyWrapper := mkEasy {
  (** what [get_response_code()] returns *)
  response_code : Z;
  (** the handler given to [async_perform] and not delivered yet *)
  easy_handler : option handler_type;
  (** number of [async_perform] calls made on the handle *)
  easy_performs : nat;
  (** [set_header_function] / [set_header_data] were called *)
  header_function : bool;
  (** [set_read_function] / [set_read_data] were called *)
  read_function : bool;
  (** [set_timeout_ms] *)
  easy_timeout_ms : Z
}.

(** Calls on the [RequestStats] sink. *)
Inductive stats_call :=
| Start
| StoreTimeToStart
| FinishEc (err : error_code)
| FinishOk (code : Z).

(** Tags added to the tracing span. *)
Inductive span_tag :=
| kHttpUrl
| kErrorFlag
| kHttpStatusCode (code : Z).

(** Calls on the promise. *)
Inductive promise_call :=
| set_value (r : option Response)
| set_exception (err : error_code).

(** [engine::ev::TimerWatcher] after [SingleshotAsync(delay, handler)]; the
    handler is always [on_retry_timer]. *)
Record TimerWatcher := mkTimer {
  timer_delay_ms : Z;
  (** the callback has not been delivered yet *)
  timer_armed : bool
}.

(** The anonymous struct [retry_]. *)
Record RetryState := mkRetry {
  retries : Z;
  current : Z;
  on_fails : bool;
  timer : option TimerWatcher
}.

Record RequestImpl := mkImpl {
  easy_ : EasyWrapper;
  stats_ : list stats_call;
  response_ : option Response;
  promise_ : list promise_call;
  timeout_ms_ : Z;
  retry_ : RetryState;
  put_method_data : list ascii;
  (** offset from [put_method_data.data()]; [None] is [nullptr] *)
  put_method_cursor : option Z;
  put_method_rest_data_size : Z;
  span_ : option (list span_tag)
}.

(** Field updates. *)
Definition with_easy (e : EasyWrapper) (r : RequestImpl) : RequestImpl :=
  mkImpl e (stats_ r) (response_ r) (promise_ r) (timeout_ms_ r) (retry_ r)
         (put_method_data r) (put_method_cursor r)
         (put_method_rest_data_size r) (span_ r).
Definition with_stats (s : list stats_call) (r : RequestImpl) : RequestImpl :=
  mkImpl (easy_ r) s (response_ r) (promise_ r) (timeout_ms_ r) (retry_ r)
         (put_method_data r) (put_method_cursor r)
         (put_method_rest_data_size r) (span_ r).
Definition with_response (p : option Response) (r : RequestImpl) : RequestImpl :=
  mkImpl (easy_ r) (stats_ r) p (promise_ r) (timeout_ms_ r) (retry_ r)
         (put_method_data r) (put_method_cursor r)
         (put_method_rest_data_size r) (span_ r).
Definition with_promise (p : list promise_call) (r : RequestImpl) : RequestImpl :=
  mkImpl (easy_ r) (stats_ r) (response_ r) p (timeout_ms_ r) (retry_ r)
         (put_method_data r) (put_method_cursor r)
         (put_method_rest_data_size r) (span_ r).
Definition with_timeout_ms (t : Z) (r : RequestImpl) : RequestImpl :=
  mkImpl (easy_ r) (stats_ r) (response_ r) (promise_ r) t (retry_ r)
         (put_method_data r) (put_method_cursor r)
         (put_method_rest_data_size r) (span_ r).
Definition with_retry (x : RetryState) (r : RequestImpl) : RequestImpl :=
  mkImpl (easy_ r) (stats_ r) (response_ r) (promise_ r) (timeout_ms_ r) x
         (put_method_data r) (put_method_cursor r)
         (put_method_rest_data_size r) (span_ r).
Definition with_put (d : list ascii) (c : option Z) (n : Z) (r : RequestImpl)
  : RequestImpl :=
  mkImpl (easy_ r) (stats_ r) (response_ r) (promise_ r) (timeout_ms_ r)
         (retry_ r) d c n (span_ r).
Definition with_span (s : option (list span_tag)) (r : RequestImpl)
  : RequestImpl :=
  mkImpl (easy_ r) (stats_ r) (response_ r) (promise_ r) (timeout_ms_ r)
         (retry_ r) (put_method_data r) (put_method_cursor r)
         (put_method_rest_data_size r) s.

(** [RequestImpl::RequestImpl]: [timeout_ms_(0)], the member initialisers
    [retries{1}], [current{1}], [on_fails{false}], a null cursor, no span,
    an unresolved promise. *)
Definition RequestImpl_new : RequestImpl :=
  mkImpl (mkEasy 0 None 0 false false 0) [] None [] 0
         (mkRetry 1 1 false None) [] None 0 None.

(** ** Fluent configuration *)

(** [Request::RequestImpl::set_timeout] *)
Definition set_timeout (timeout_ms : Z) (r : RequestImpl) : RequestImpl :=
  let e := easy_ r in
  with_easy (mkEasy (response_code e) (easy_handler e) (easy_performs e)
                    (header_function e) (read_function e) timeout_ms)
            (with_timeout_ms timeout_ms r).

(** [Request::RequestImpl::retry]: the [int] argument is stored in a
    [short]. *)
Definition retry (retries0 : Z) (on_fails0 : bool) (r : RequestImpl)
  : RequestImpl :=
  with_retry (mkRetry (to_short retries0) 1 on_fails0 (timer (retry_ r))) r.

(** [Request::retry] *)
Definition Request_retry (retries0 : Z) (on_fails0 : bool) (r : RequestImpl)
  : RequestImpl :=
  let retries1 := if retries0 <=? 0 then 1 else retries0 in
  retry retries1 on_fails0 r.

(** The getters [timeout()] and [retries()]. *)
Definition RequestImpl_timeout (r : RequestImpl) : Z := timeout_ms_ r.
Definition RequestImpl_retries (r : RequestImpl) : Z := retries (retry_ r).

(** [Request::RequestImpl::SetPutMethodData] *)
Definition SetPutMethodData (data : list ascii) (r : RequestImpl)
  : RequestImpl :=
  with_put data None 0 r.

(** [Request::put(url, data)]: stores the body and installs the read
    callback. *)
Definition Request_put (data : list ascii) (r : RequestImpl) : RequestImpl :=
  let r1 := SetPutMethodData data r in
  let e := easy_ r1 in
  with_easy (mkEasy (response_code e) (easy_handler e) (easy_performs e)
                    (header_function e) true (easy_timeout_ms e)) r1.

(** ** Aggregate deadline *)

(** The loop of [max_retry_time]: [for (short i = 1; i < number; ++i)]. *)
Fixpoint max_retry_time_loop (fuel : nat) (i number time_ms : Z) : Z :=
  match fuel with
  | O => time_ms
  | S fuel' =>
      if i <? number then
        max_retry_time_loop fuel' (i + 1) number
          (time_ms +
           kEBBaseTime * (Z.shiftl 1 (Z.min (i - 1) kMaxRetryInTimeout) + 1))
      else time_ms
  end.

(** [max_retry_time]; the loop runs at most [number - 1] times. *)
Definition max_retry_time (number : Z) : Z :=
  max_retry_time_loop (Z.to_nat number) 1 number 0.

(** Conversion of a [long] or an [int] to [double]: to the nearest binary64
    value (exact below 2^53 in magnitude; the model covers magnitudes below
    2^63). *)
Definition long_to_double (z : Z) : float :=
  if z <? 0 then PrimFloat.opp (PrimFloat.of_uint63 (Uint63.of_Z (- z)))
  else PrimFloat.of_uint63 (Uint63.of_Z z).

(** [static_cast<long>] of a finite [double]: the fractional part is
    discarded (truncation toward zero). *)
Definition double_to_long (f : float) : Z :=
  match Prim2SF f with
  | S754_finite s m e =>
      let mag := if 0 <=? e then Z.pos m * 2 ^ e else Z.pos m / 2 ^ (- e) in
      if s then - mag else mag
  | _ => 0
  end.

(** The [double] expression of [complete_timeout],
    [request_timeout * 1.1 * retries + budget]: the operands are converted
    to [double], the literal is the binary64 value nearest to 1.1, and every
    operation rounds to nearest. *)
Definition deadline_double (request_timeout retries0 budget : Z) : float :=
  PrimFloat.add
    (PrimFloat.mul
       (PrimFloat.mul (long_to_double request_timeout)
                      0x1.199999999999ap+0%float)
       (long_to_double retries0))
    (long_to_double budget).

(** [complete_timeout]; the [int] argument is narrowed to [short] when it
    is passed on to [max_retry_time]. *)
Definition complete_timeout (request_timeout retries0 : Z) : Z :=
  double_to_long
    (deadline_double request_timeout retries0
                     (max_retry_time (to_short retries0))).

(** The timeout that [Request::async_perform] hands to [ResponseFuture]. *)
Definition Request_async_perform_timeout (r : RequestImpl) : Z :=
  complete_timeout (RequestImpl_timeout r) (RequestImpl_retries r).

(** ** Header parser *)

Definition is_trailing (c : ascii) : bool :=
  Ascii.eqb c LF || Ascii.eqb c CR || Ascii.eqb c SP.

(** [rfind_not_space(ptr, size)]: the offset one past the last character of
    [ptr[0..size)] that is not LF, CR or a space; 0 when there is none.  The
    recursion is the loop [for (p = ptr + size - 1; p >= ptr; --p)]. *)
Fixpoint rfind_not_space (ptr : list ascii) (size : nat) : nat :=
  match size with
  | O => O
  | S p =>
      if is_trailing (nth p ptr NUL) then rfind_not_space ptr p
      else S p
  end.

(** [strchr]: offset of the first [c] before the terminator.  Memory past
    the modelled buffer reads as the terminator. *)
Fixpoint strchr (s : list ascii) (c : ascii) : option nat :=
  match s with
  | [] => None
  | x :: s' =>
      if Ascii.eqb x c then Some O
      else if Ascii.eqb x NUL then None
      else S <$> strchr s' c
  end.

(** [Request::RequestImpl::parse_header] on the header map of the current
    response. *)
Definition parse_header_map (ptr : list ascii) (size : nat)
    (h : gmap string string) : gmap string string :=
  let end_ := rfind_not_space ptr size in
  if Nat.eqb end_ O then h
  else
    let ptr' := <[end_ := NUL]> ptr in
    match strchr ptr' COLON with
    | None => h
    | Some col_pos =>
        let key := string_of_list_ascii (take col_pos ptr') in
        let value :=
          string_of_list_ascii
            (take (end_ - col_pos - 1) (drop (col_pos + 1) ptr')) in
        <[key := value]> h
    end.

Definition parse_header (ptr : list ascii) (size : nat) (r : RequestImpl)
  : RequestImpl :=
  match response_ r with
  | Some resp =>
      with_response
        (Some (mkResponse (parse_header_map ptr size (headers resp))
                          (sink_stream resp))) r
  | None => r
  end.

(** [Request::RequestImpl::on_header]: returns the value handed back to the
    transfer engine and the request behind [userdata] ([None] is a null
    pointer). *)
Definition on_header (ptr : list ascii) (size nmemb : Z)
    (userdata : option RequestImpl) : Z * option RequestImpl :=
  let data_size := to_size_t (size * nmemb) in
  (data_size, parse_header ptr (Z.to_nat data_size) <$> userdata).

(** ** PUT body feeder *)

(** [Request::RequestImpl::PutMethodReadCallback]: the updated request, the
    bytes copied to the front of [out_buffer], and the return value. *)
Definition PutMethodReadCallback (size nmemb : Z) (impl : RequestImpl)
  : RequestImpl * list ascii * Z :=
  (* Fill metadata on first call *)
  let impl1 :=
    match put_method_cursor impl with
    | None => with_put (put_method_data impl) (Some 0)
                       (Z.of_nat (length (put_method_data impl))) impl
    | Some _ => impl
    end in
  let cursor := default 0 (put_method_cursor impl1) in
  (* Fill out buffer *)
  let curl_buffer_size := to_size_t (nmemb * size) in
  let bytes_to_copy :=
    Z.min (put_method_rest_data_size impl1) curl_buffer_size in
  let out :=
    take (Z.to_nat bytes_to_copy)
         (drop (Z.to_nat cursor) (put_method_data impl1)) in
  (* Update metadata *)
  (with_put (put_method_data impl1) (Some (cursor + bytes_to_copy))
            (put_method_rest_data_size impl1 - bytes_to_copy) impl1,
   out, bytes_to_copy).

(** ** The request state machine *)

Definition stats_add (c : stats_call) (r : RequestImpl) : RequestImpl :=
  with_stats (stats_ r ++ [c]) r.

(** [span.AddTag]; the span is dereferenced without a check, so nothing is
    recorded once it has been reset. *)
Definition AddTag (t : span_tag) (r : RequestImpl) : RequestImpl :=
  with_span ((fun tags => tags ++ [t]) <$> span_ r) r.

Definition get_response_code (r : RequestImpl) : Z := response_code (easy_ r).

(** Modelled from the spec: [Response::IsOk] is not part of the sources at
    hand; the span carries the error flag iff the final outcome was not
    2xx/3xx. *)
Definition IsOk (status_code : Z) : bool :=
  (200 <=? status_code) && (status_code <? 400).

(** [Request::RequestImpl::perform_request] *)
Definition perform_request (handler : handler_type) (r : RequestImpl)
  : RequestImpl :=
  let r1 := with_response (Some (mkResponse ∅ [])) r in
  let e := easy_ r1 in
  with_easy (mkEasy (response_code e) (Some handler) (S (easy_performs e))
                    (header_function e) (read_function e) (easy_timeout_ms e))
            r1.

(** [Request::RequestImpl::on_completed] *)
Definition on_completed (err : error_code) (holder : RequestImpl)
  : RequestImpl :=
  let h1 := stats_add StoreTimeToStart holder in
  let h2 :=
    if is_error err then
      let a := AddTag (kHttpStatusCode 599) (AddTag kErrorFlag h1) in
      let b := stats_add (FinishEc err) a in
      with_promise (promise_ b ++ [set_exception err]) b
    else
      let a := AddTag (kHttpStatusCode (get_response_code h1)) h1 in
      let a' := if IsOk (get_response_code a) then a
                else AddTag kErrorFlag a in
      let b := stats_add (FinishOk (get_response_code a')) a' in
      (* [response_move()] leaves [response_] empty *)
      with_response None
        (with_promise (promise_ b ++ [set_value (response_ b)]) b)
  in
  with_span None h2.

(** The delay computed in [on_retry]; [rnd] is the value of [rand()], and
    [%] is C's remainder. *)
Definition retry_timeout_ms (current0 rnd : Z) : Z :=
  kEBBaseTime *
  (Z.rem rnd (Z.shiftl 1 (Z.min (current0 - 1) kMaxRetryInTimeout)) + 1).

(** The decision of [on_retry]. *)
Definition not_need_retry (err : error_code) (holder : RequestImpl) : bool :=
  (negb (is_error err) && (get_response_code holder <? kLeastBadHttpCodeForEB))
  || (retries (retry_ holder) <=? current (retry_ holder))
  || (is_error err && negb (on_fails (retry_ holder))).

(** The statistics [on_retry] records for the attempt that has ended. *)
Definition record_attempt (err : error_code) (holder : RequestImpl)
  : RequestImpl :=
  let h1 := stats_add StoreTimeToStart holder in
  if is_error err then stats_add (FinishEc err) h1
  else stats_add (FinishOk (get_response_code h1)) h1.

(** [Request::RequestImpl::on_retry]; [rnd] is what [rand()] returns if it
    is called. *)
Definition on_retry (err : error_code) (rnd : Z) (holder : RequestImpl)
  : RequestImpl :=
  let h2 := record_attempt err holder in
  if not_need_retry err h2 then
    (* finish if don't need retry *)
    on_completed err h2
  else
    (* calculate timeout before retry *)
    let timeout_ms := retry_timeout_ms (current (retry_ h2)) rnd in
    let rt := retry_ h2 in
    (* increase try, initialize timer, call on_retry_timer on timer *)
    with_retry (mkRetry (retries rt) (to_short (current rt + 1)) (on_fails rt)
                        (Some (mkTimer timeout_ms true))) h2.

(** [Request::RequestImpl::on_retry_timer] *)
Definition on_retry_timer (err : error_code) (r : RequestImpl) : RequestImpl :=
  if negb (is_error err) then perform_request Handler_on_retry r
  else on_completed err r.

(** [Request::RequestImpl::async_perform] *)
Definition async_perform (r : RequestImpl) : RequestImpl :=
  let r1 := with_span (Some [kHttpUrl]) r in
  let e := easy_ r1 in
  let r2 :=
    with_easy (mkEasy (response_code e) (easy_handler e) (easy_performs e)
                      true (read_function e) (easy_timeout_ms e)) r1 in
  let r3 := stats_add Start r2 in
  if retries (retry_ r3) <=? 1 then perform_request Handler_on_completed r3
  else perform_request Handler_on_retry r3.

(** ** The reactor

    What the transfer engine and the timer may deliver to the request.  A
    completion carries the error code, the response code the handle reports
    from then on, and the value [rand()] would return. *)
Inductive Event :=
| TransferDone (err : error_code) (code : Z) (rnd : Z)
| TimerFired (err : error_code)
| HeaderData (ptr : list ascii) (size nmemb : Z)
| ReadData (size nmemb : Z).

Definition in_flight (r : RequestImpl) : bool :=
  match easy_handler (easy_ r) with Some _ => true | None => false end.

Definition timer_pending (r : RequestImpl) : bool :=
  match timer (retry_ r) with Some t => timer_armed t | None => false end.

(** A callback is still owed to the request. *)
Definition pending (r : RequestImpl) : bool := in_flight r || timer_pending r.

(** The engine hands over the completion: the handler is consumed and the
    response code becomes readable. *)
Definition complete_transfer (code : Z) (r : RequestImpl) : RequestImpl :=
  let e := easy_ r in
  with_easy (mkEasy code None (easy_performs e) (header_function e)
                    (read_function e) (easy_timeout_ms e)) r.

(** The single-shot timer has fired. *)
Definition disarm_timer (r : RequestImpl) : RequestImpl :=
  let rt := retry_ r in
  with_retry (mkRetry (retries rt) (current rt) (on_fails rt)
                      ((fun t => mkTimer (timer_delay_ms t) false) <$> timer rt))
             r.

(** One callback delivered on the reactor thread; [None] when the event is
    not one the engine can deliver in this state. *)
Definition deliver (r : RequestImpl) (ev : Event) : option RequestImpl :=
  match ev with
  | TransferDone err code rnd =>
      match easy_handler (easy_ r) with
      | Some Handler_on_completed =>
          Some (on_completed err (complete_transfer code r))
      | Some Handler_on_retry =>
          Some (on_retry err rnd (complete_transfer code r))
      | None => None
      end
  | TimerFired err =>
      if timer_pending r then Some (on_retry_timer err (disarm_timer r))
      else None
  | HeaderData ptr size nmemb =>
      if in_flight r && header_function (easy_ r) then
        (on_header ptr size nmemb (Some r)).2
      else None
  | ReadData size nmemb =>
      if in_flight r && read_function (easy_ r) then
        Some (PutMethodReadCallback size nmemb r).1.1
      else None
  end.

(** A sequence of callbacks. *)
Fixpoint exec (r : RequestImpl) (evs : list Event) : option RequestImpl :=
  match evs with
  | [] => Some r
  | ev :: evs' =>
      match deliver r ev with
      | Some r' => exec r' evs'
      | None => None
      end
  end.

(** Number of promise resolutions, of attempts submitted, of completions
    delivered. *)
Definition resolutions (r : RequestImpl) : nat := length (promise_ r).
Definition attempts (r : RequestImpl) : nat := easy_performs (easy_ r).

Definition is_completion (ev : Event) : bool :=
  match ev with
  | TransferDone _ _ _ | TimerFired _ => true
  | _ => false
  end.
Fixpoint completions (evs : list Event) : nat :=
  match evs with
  | [] => O
  | ev :: evs' => ((if is_completion ev then 1 else 0) + completions evs')%nat
  end.

(** ** Configured requests *)

(** The calls of the fluent builder that reach [RequestImpl] state. *)
Inductive BuilderCall :=
| call_timeout (timeout_ms : Z)
| call_retry (retries0 : Z) (on_fails0 : bool)
| call_put (data : list ascii).

Definition apply_call (r : RequestImpl) (c : BuilderCall) : RequestImpl :=
  match c with
  | call_timeout t => set_timeout t r
  | call_retry n f => Request_retry n f r
  | call_put d => Request_put d r
  end.

(** A request as the client factory hands it out, after the given calls. *)
Definition configure (calls : list BuilderCall) : RequestImpl :=
  foldl apply_call RequestImpl_new calls.

(** ** The specification's formulas *)

(** [Σ_{i=1..n-1} kEBBase · (2^min(i-1,5) + 1)] *)
Definition backoff_budget (n : Z) : Z :=
  foldr Z.add 0
        ((fun i => kEBBaseTime * (2 ^ Z.min (i - 1) 5 + 1)) <$> seqZ 1 (n - 1)).

(** [ceil(t · 1.1 · n + Σ)] over the rationals. *)
Definition spec_complete_timeout (t n : Z) : Z :=
  Qround.Qceiling
    (QArith_base.Qplus
       (QArith_base.Qmult
          (QArith_base.Qmult (QArith_base.inject_Z t)
                             (QArith_base.Qmake 11 10))
          (QArith_base.inject_Z n))
       (QArith_base.inject_Z (backoff_budget n))).

(** The same with the fractional part dropped instead. *)
Definition floor_complete_timeout (t n : Z) : Z :=
  11 * t * n / 10 + backoff_budget n.

(** The range check behind the bounded comparison of [complete_timeout]
    with [floor_complete_timeout]. *)
Definition complete_timeout_agrees (t n : Z) : bool :=
  complete_timeout t n =? floor_complete_timeout t n.

Definition complete_timeout_agrees_upto (tmax nmax : Z) : bool :=
  forallb (fun t => forallb (complete_timeout_agrees t) (seqZ 1 nmax))
          (seqZ 0 (tmax + 1)).

(** ** Driving the PUT feeder *)

(** The read callback invoked once per [(size, nmemb)] of the list, as the
    transfer engine does while it uploads: the final request and, per call,
    the bytes copied and the value returned. *)
Fixpoint feed (caps : list (Z * Z)) (impl : RequestImpl)
  : RequestImpl * list (list ascii * Z) :=
  match caps with
  | [] => (impl, [])
  | (size, nmemb) :: caps' =>
      let '(impl1, out, n) := PutMethodReadCallback size nmemb impl in
      let '(impl2, outs) := feed caps' impl1 in
      (impl2, (out, n) :: outs)
  end.

(** Capacity of the output buffer of one call. *)
Definition capacity (c : Z * Z) : Z := to_size_t (c.2 * c.1).

Definition total_capacity (caps : list (Z * Z)) : Z :=
  foldr Z.add 0 (capacity <$> caps).

(** Bytes of the payload already handed to the engine, and bytes left, as
    the feeder's cursor has them ([nullptr]: nothing handed out yet). *)
Definition put_sent (r : RequestImpl) : Z :=
  default 0 (put_method_cursor r).
Definition put_remaining (r : RequestImpl) : Z :=
  match put_method_cursor r with
  | None => Z.of_nat (length (put_method_data r))
  | Some _ => put_method_rest_data_size r
  end.

(** The cursor and the remaining size describe the same position. *)
Definition put_consistent (r : RequestImpl) : Prop :=
  0 <= put_sent r /\
  put_sent r + put_remaining r = Z.of_nat (length (put_method_data r)) /\
  0 <= put_remaining r.

(** Bytes copied by the first [k] calls of a run of the feeder. *)
Definition copied_before (k : nat) (outs : list (list ascii * Z)) : Z :=
  Z.of_nat (length (concat (take k outs).*1)).

(** ** Header lines *)

(** Every character is one that [rfind_not_space] skips. *)
Definition all_trailing (ws : list ascii) : Prop :=
  Forall (fun c => is_trailing c = true) ws.

(** The text does not end in a character that [rfind_not_space] skips. *)
Definition ends_visibly (l : list ascii) : Prop :=
  forall c, last l = Some c -> is_trailing c = false.

(** The header map of the current response after [parse_header] has been
    given the whole of [ptr]. *)
Definition headers_after (ptr : list ascii) (r : RequestImpl)
  : option (gmap string string) :=
  headers <$> response_ (parse_header ptr (length ptr) r).

(** The three reasons to finish that the retry decision lists: (i) no error
    and a response status below 500; (ii) the attempts used have reached the
    configured count; (iii) a transport error while [on_fails] is off. *)
Definition finish_condition (err : error_code) (holder : RequestImpl) : Prop :=
  (err = 0 /\ get_response_code holder < 500) \/
  (current (retry_ holder) >= retries (retry_ holder)) \/
  (err <> 0 /\ on_fails (retry_ holder) = false).

(** ** Executions of a request *)

(** The callbacks a request may still receive, at most: one per transfer in
    flight, and a timer and a transfer for every attempt still allowed. *)
Definition budget (r : RequestImpl) : nat :=
  let left := Z.to_nat (retries (retry_ r) - current (retry_ r)) in
  match easy_handler (easy_ r) with
  | Some Handler_on_completed => 1
  | Some Handler_on_retry => 1 + 2 * left
  | None => if timer_pending r then 2 + 2 * left else 0
  end.

(** What holds of a submitted request between two callbacks: the stored
    attempt count fits a [short]; at least one attempt has been submitted;
    while a transfer is in flight no timer is armed, nothing is resolved and
    [current] counts the attempts; while the timer is armed nothing is in
    flight, nothing is resolved and [current] already counts the attempt to
    come; when nothing is owed any more the promise has one resolution. *)
Definition request_inv (r : RequestImpl) : Prop :=
  let R := retries (retry_ r) in
  let c := current (retry_ r) in
  let a := Z.of_nat (attempts r) in
  -32768 <= R <= 32767 /\ 1 <= a /\
  match easy_handler (easy_ r), timer_pending r with
  | Some _, true => False
  | Some _, false => resolutions r = 0%nat /\ c = a /\ c <= Z.max 1 R
  | None, true => resolutions r = 0%nat /\ c = a + 1 /\ c <= R
  | None, false => resolutions r = 1%nat /\ a <= c <= a + 1 /\ c <= Z.max 1 R
  end.

(** A request that has been configured and not submitted yet. *)
Definition unsubmitted (r : RequestImpl) : Prop :=
  promise_ r = [] /\
  easy_handler (easy_ r) = None /\
  easy_performs (easy_ r) = O /\
  timer (retry_ r) = None /\
  current (retry_ r) = 1 /\
  -32768 <= retries (retry_ r) <= 32767.

(** What a callback does to the parts of the request that the retry logic
    reads. *)
Inductive effect_of (r : RequestImpl) : Event -> RequestImpl -> Prop :=
| effect_data ev r' :
    is_completion ev = false ->
    in_flight r = true ->
    easy_ r' = easy_ r -> retry_ r' = retry_ r -> promise_ r' = promise_ r ->
    effect_of r ev r'
| effect_finish err code rnd h r' :
    easy_handler (easy_ r) = Some h ->
    (h = Handler_on_retry -> finish_condition err (complete_transfer code r)) ->
    easy_handler (easy_ r') = None ->
    attempts r' = attempts r ->
    retry_ r' = retry_ r ->
    resolutions r' = S (resolutions r) ->
    effect_of r (TransferDone err code rnd) r'
| effect_backoff err code rnd r' :
    easy_handler (easy_ r) = Some Handler_on_retry ->
    ~ finish_condition err (complete_transfer code r) ->
    easy_handler (easy_ r') = None ->
    attempts r' = attempts r ->
    retry_ r' = mkRetry (retries (retry_ r))
                        (to_short (current (retry_ r) + 1))
                        (on_fails (retry_ r))
                        (Some (mkTimer
                                 (retry_timeout_ms (current (retry_ r)) rnd)
                                 true)) ->
    promise_ r' = promise_ r ->
    effect_of r (TransferDone err code rnd) r'
| effect_resubmit r' :
    timer_pending r = true ->
    easy_handler (easy_ r') = Some Handler_on_retry ->
    attempts r' = S (attempts r) ->
    retry_ r' = retry_ (disarm_timer r) ->
    promise_ r' = promise_ r ->
    effect_of r (TimerFired 0) r'
| effect_timer_failed err r' :
    err <> 0 ->
    timer_pending r = true ->
    easy_ r' = easy_ r ->
    retry_ r' = retry_ (disarm_timer r) ->
    resolutions r' = S (resolutions r) ->
    effect_of r (TimerFired err) r'.

(** The engine and the timer as an oracle: for the attempt with the given
    number, the completion it ends with (error code, response code, value of
    [rand()]) and the error code of the timer callback that follows it. *)
Definition Oracle := nat -> (error_code * Z * Z) * error_code.

(** The callback owed to the request, if any, as the oracle has it. *)
Definition next_event (env : Oracle) (r : RequestImpl) : option Event :=
  match easy_handler (easy_ r) with
  | Some _ =>
      let '(err, code, rnd) := (env (attempts r)).1 in
      Some (TransferDone err code rnd)
  | None =>
      if timer_pending r then Some (TimerFired (env (attempts r)).2) else None
  end.

(** The request driven until nothing is owed to it, for at most [fuel]
    callbacks. *)
Fixpoint run (fuel : nat) (env : Oracle) (r : RequestImpl) : RequestImpl :=
  match fuel with
  | O => r
  | S fuel' =>
      match next_event env r with
      | Some ev =>
          match deliver r ev with
          | Some r' => run fuel' env r'
          | None => r
          end
      | None => r
      end
  end.

(** The outcome of an attempt after which [on_retry] goes on: a transport
    error while [on_fails] is on, or a status of 500 and more. *)
Definition retry_worthy (on_fails0 : bool) (err : error_code) (code : Z)
  : Prop :=
  (err <> 0 /\ on_fails0 = true) \/ (err = 0 /\ code >= 500).

(** ** Observations on executions *)

(** The delay of the timer that the step from [r] to [r'] has armed, 0 when
    it has armed none. *)
Definition armed_delay (r r' : RequestImpl) : Z :=
  if timer_pending r' && negb (timer_pending r) then
    match timer (retry_ r') with Some t => timer_delay_ms t | None => 0 end
  else 0.

(** The sum of the backoff delays armed along a sequence of callbacks. *)
Fixpoint backoff_total (r : RequestImpl) (evs : list Event) : Z :=
  match evs with
  | [] => 0
  | ev :: evs' =>
      match deliver r ev with
      | Some r' => armed_delay r r' + backoff_total r' evs'
      | None => 0
      end
  end.

(** While a transfer is in flight there is a response to write to; the span
    exists exactly as long as a callback is owed. *)
Definition live_inv (r : RequestImpl) : Prop :=
  (in_flight r = true -> is_Some (response_ r)) /\
  (pending r = true -> is_Some (span_ r)) /\
  (pending r = false -> span_ r = None).

(** Counting the calls on the statistics sink and the completions among
    the callbacks. *)
Definition is_finish (c : stats_call) : bool :=
  match c with FinishEc _ | FinishOk _ => true | _ => false end.
Definition is_start (c : stats_call) : bool :=
  match c with Start => true | _ => false end.
Fixpoint count_calls (p : stats_call -> bool) (s : list stats_call) : nat :=
  match s with
  | [] => O
  | c :: s' => ((if p c then 1 else 0) + count_calls p s')%nat
  end.
Fixpoint transfers_done (evs : list Event) : nat :=
  match evs with
  | [] => O
  | TransferDone _ _ _ :: evs' => S (transfers_done evs')
  | _ :: evs' => transfers_done evs'
  end.

(** Statistics recorded so far, against [T] transfers completed: one
    [Start]; one [Finish*] per transfer, and one more once a request that was
    submitted with [on_retry] is resolved. *)
Definition stats_inv (T : nat) (r : RequestImpl) : Prop :=
  count_calls is_start (stats_ r) = 1%nat /\
  count_calls is_finish (stats_ r)
    = (T + if pending r then 0
           else if (retries (retry_ r) <=? 1)%Z then 0 else 1)%nat /\
  (easy_handler (easy_ r) = Some Handler_on_completed ->
   retries (retry_ r) <= 1) /\
  (easy_handler (easy_ r) = Some Handler_on_retry ->
   1 < retries (retry_ r)).

(** The oracle's entry for an attempt lets the retry loop go on: the
    outcome is one [on_retry] retries after, and the timer fires with
    success. *)
Definition goes_on (f : bool) (o : (error_code * Z * Z) * error_code) : Prop :=
  retry_worthy f o.1.1.1 o.1.1.2 /\ o.2 = 0.

(** The argument of the last [timeout()] call, 0 when there is none. *)
Definition last_timeout (calls : list BuilderCall) : Z :=
  foldl (fun t c => match c with call_timeout t' => t' | _ => t end) 0 calls.

(** The header callback invoked once per [(ptr, size, nmemb)], as the
    transfer engine does while it receives the response head. *)
Definition header_events (lines : list (list ascii * Z * Z)) : list Event :=
  (fun l => HeaderData l.1.1 l.1.2 l.2) <$> lines.

(** The header map after [parse_header] has seen these buffers in turn. *)
Definition parse_lines (h : gmap string string)
    (lines : list (list ascii * Z * Z)) : gmap string string :=
  foldl (fun h l =>
           parse_header_map l.1.1 (Z.to_nat (to_size_t (l.1.2 * l.2))) h)
        h lines.

(** The header buffer a callback carries, if it is a header callback. *)
Definition header_buffer (ev : Event) : option (list ascii * Z * Z) :=
  match ev with
  | HeaderData ptr size nmemb => Some (ptr, size, nmemb)
  | _ => None
  end.

(** The header buffers received by the attempt in progress or, once the
    request has ended, by the attempt that ended it.  A timer callback
    without error runs [perform_request], which starts the next attempt with
    a new response, so the buffers counted so far are dropped there; a
    timer callback with an error ends the request and starts nothing. *)
Definition attempt_lines_step (acc : list (list ascii * Z * Z)) (ev : Event)
  : list (list ascii * Z * Z) :=
  match ev with
  | HeaderData ptr size nmemb => acc ++ [(ptr, size, nmemb)]
  | TimerFired err => if is_error err then acc else []
  | _ => acc
  end.
Definition attempt_lines (evs : list Event) : list (list ascii * Z * Z) :=
  foldl attempt_lines_step [] evs.

(** * Properties *)

(** ** Basic facts *)

Lemma to_size_t_small z : 0 <= z < 2 ^ 64 -> to_size_t z = z.
Proof. intros H. unfold to_size_t. apply Z.mod_small. exact H. Qed.

Lemma to_short_small z : -32768 <= z <= 32767 -> to_short z = z.
Proof. intros H. unfold to_short. rewrite Z.mod_small; lia. Qed.

Lemma to_short_range z : -32768 <= to_short z <= 32767.
Proof.
  unfold to_short.
  pose proof (Z.mod_pos_bound (z + 32768) 65536 ltac:(lia)). lia.
Qed.

Lemma is_error_false err : is_error err = false <-> err = 0.
Proof. unfold is_error. rewrite negb_false_iff. apply Z.eqb_eq. Qed.

Lemma is_error_true err : is_error err = true <-> err <> 0.
Proof. unfold is_error. rewrite negb_true_iff. apply Z.eqb_neq. Qed.

(** What [on_completed] leaves untouched and what it adds. *)
Ltac on_completed_cases err :=
  unfold on_completed;
  destruct (is_error err); cbn; [|destruct (IsOk _)]; cbn.

Lemma resolutions_on_completed err r :
  resolutions (on_completed err r) = S (resolutions r).
Proof.
  unfold resolutions. on_completed_cases err; rewrite length_app; cbn; lia.
Qed.

Lemma attempts_on_completed err r : attempts (on_completed err r) = attempts r.
Proof. unfold attempts. on_completed_cases err; reflexivity. Qed.

Lemma easy_on_completed err r : easy_ (on_completed err r) = easy_ r.
Proof. on_completed_cases err; reflexivity. Qed.

Lemma retry_on_completed err r : retry_ (on_completed err r) = retry_ r.
Proof. on_completed_cases err; reflexivity. Qed.

Lemma put_on_completed err r :
  put_method_data (on_completed err r) = put_method_data r /\
  put_method_cursor (on_completed err r) = put_method_cursor r /\
  put_method_rest_data_size (on_completed err r) = put_method_rest_data_size r.
Proof. on_completed_cases err; repeat split. Qed.

Lemma in_flight_on_completed err r :
  in_flight (on_completed err r) = in_flight r.
Proof. unfold in_flight. now rewrite easy_on_completed. Qed.

Lemma timer_pending_on_completed err r :
  timer_pending (on_completed err r) = timer_pending r.
Proof. unfold timer_pending. now rewrite retry_on_completed. Qed.

Lemma promise_on_completed_error err r :
  is_error err = true ->
  promise_ (on_completed err r) = promise_ r ++ [set_exception err].
Proof. intros H. unfold on_completed. rewrite H. reflexivity. Qed.

(** What [record_attempt] leaves untouched. *)
Lemma record_attempt_frame err r :
  easy_ (record_attempt err r) = easy_ r /\
  retry_ (record_attempt err r) = retry_ r /\
  promise_ (record_attempt err r) = promise_ r /\
  put_method_data (record_attempt err r) = put_method_data r /\
  put_method_cursor (record_attempt err r) = put_method_cursor r /\
  put_method_rest_data_size (record_attempt err r)
    = put_method_rest_data_size r.
Proof. unfold record_attempt. destruct (is_error err); repeat split. Qed.

(** ** The header callback's return value *)

(** C10: whatever the buffer, [size], [nmemb] and [userdata] (null or not),
    [on_header] returns [size * nmemb] as computed in [size_t] — the full
    length of the buffer it was given, which is the product itself whenever
    that fits [size_t] — independently of what the line parses to. *)
Theorem on_header_returns_data_size
    (ptr : list ascii) (size nmemb : Z) (userdata : option RequestImpl) :
  (on_header ptr size nmemb userdata).1 = to_size_t (size * nmemb) /\
  (0 <= size * nmemb < 2 ^ 64 ->
   (on_header ptr size nmemb userdata).1 = size * nmemb).
Proof.
  split; [reflexivity|].
  intros H. cbn. now apply to_size_t_small.
Qed.

Lemma on_header_returns_data_size_witness :
  0 <= 1 * 16 < 2 ^ 64 /\ (on_header [] 1 16 None).1 = 1 * 16.
Proof.
  split; [lia|].
  apply (on_header_returns_data_size [] 1 16 None). lia.
Defined.

(** ** The backoff timer callback *)

(** C9: when the timer delivers a non-success error code, [on_retry_timer]
    is [on_completed] with that error: the promise receives [set_exception]
    and no transfer is submitted.  When it delivers success the next attempt
    is submitted through [perform_request] with [on_retry] as its handler.
    An attempt is submitted only in the second case. *)
Theorem on_retry_timer_outcome (err : error_code) (r : RequestImpl) :
  (err <> 0 ->
     on_retry_timer err r = on_completed err r /\
     promise_ (on_retry_timer err r) = promise_ r ++ [set_exception err] /\
     attempts (on_retry_timer err r) = attempts r /\
     in_flight (on_retry_timer err r) = in_flight r) /\
  (err = 0 ->
     on_retry_timer err r = perform_request Handler_on_retry r /\
     attempts (on_retry_timer err r) = S (attempts r) /\
     easy_handler (easy_ (on_retry_timer err r)) = Some Handler_on_retry /\
     promise_ (on_retry_timer err r) = promise_ r) /\
  (attempts (on_retry_timer err r) <> attempts r <-> err = 0).
Proof.
  assert (Hne : err <> 0 -> on_retry_timer err r = on_completed err r).
  { intros H. apply is_error_true in H. unfold on_retry_timer. now rewrite H. }
  assert (He : err = 0 ->
            on_retry_timer err r = perform_request Handler_on_retry r).
  { intros H. apply is_error_false in H. unfold on_retry_timer. now rewrite H. }
  split; [|split].
  - intros H. rewrite (Hne H). split; [reflexivity|].
    split; [apply promise_on_completed_error; now apply is_error_true|].
    split; [apply attempts_on_completed | apply in_flight_on_completed].
  - intros H. rewrite (He H). repeat split.
  - split.
    + intros H. destruct (Z.eq_dec err 0) as [E|E]; [exact E|].
      rewrite (Hne E), attempts_on_completed in H. congruence.
    + intros H. rewrite (He H). unfold attempts. cbn. lia.
Qed.

Lemma on_retry_timer_outcome_witness :
  125 <> 0 /\
  promise_ (on_retry_timer 125 RequestImpl_new) = [set_exception 125] /\
  attempts (on_retry_timer 125 RequestImpl_new) = O.
Proof.
  split; [lia|].
  destruct (on_retry_timer_outcome 125 RequestImpl_new) as (H & _).
  destruct (H ltac:(lia)) as (_ & Hp & Ha & _).
  split; [exact Hp | exact Ha].
Defined.

(** ** The retry decision *)

Lemma not_need_retry_iff err holder :
  not_need_retry err (record_attempt err holder) = true <->
  finish_condition err holder.
Proof.
  unfold not_need_retry, finish_condition, get_response_code,
    kLeastBadHttpCodeForEB.
  destruct (record_attempt_frame err holder) as (-> & -> & _).
  rewrite !orb_true_iff, !andb_true_iff, !negb_true_iff.
  rewrite is_error_false, is_error_true, Z.ltb_lt, Z.leb_le.
  intuition lia.
Qed.

Lemma on_retry_finish err rnd holder :
  finish_condition err holder ->
  on_retry err rnd holder = on_completed err (record_attempt err holder).
Proof.
  intros H. apply not_need_retry_iff in H. unfold on_retry. now rewrite H.
Qed.

Lemma on_retry_backoff err rnd holder :
  ~ finish_condition err holder ->
  on_retry err rnd holder
  = with_retry
      (mkRetry (retries (retry_ holder))
               (to_short (current (retry_ holder) + 1))
               (on_fails (retry_ holder))
               (Some (mkTimer (retry_timeout_ms (current (retry_ holder)) rnd)
                              true)))
      (record_attempt err holder).
Proof.
  intros H. unfold on_retry.
  destruct (record_attempt_frame err holder) as (_ & Hr & _).
  destruct (not_need_retry err (record_attempt err holder)) eqn:E.
  - exfalso. apply H, not_need_retry_iff. exact E.
  - now rewrite Hr.
Qed.

Lemma finish_condition_dec err holder :
  finish_condition err holder \/ ~ finish_condition err holder.
Proof.
  destruct (not_need_retry err (record_attempt err holder)) eqn:E.
  - left. now apply not_need_retry_iff.
  - right. intros C. apply not_need_retry_iff in C. congruence.
Qed.

(** C2: [on_retry] finishes the request — it calls [on_completed], which
    resolves the promise — exactly when (i) there is no error and the
    response status is below 500, or (ii) the attempts used have reached the
    configured count, or (iii) there is an error and [on_fails] is off.
    Otherwise it resolves nothing and submits nothing: it increments the
    attempt counter and arms one single-shot timer whose successful callback
    submits the next attempt with [on_retry] as handler. *)
Theorem on_retry_decision (err : error_code) (rnd : Z) (holder : RequestImpl) :
  (finish_condition err holder <->
     resolutions (on_retry err rnd holder) = S (resolutions holder)) /\
  (finish_condition err holder ->
     on_retry err rnd holder = on_completed err (record_attempt err holder) /\
     timer (retry_ (on_retry err rnd holder)) = timer (retry_ holder)) /\
  (~ finish_condition err holder ->
     promise_ (on_retry err rnd holder) = promise_ holder /\
     attempts (on_retry err rnd holder) = attempts holder /\
     timer (retry_ (on_retry err rnd holder))
       = Some (mkTimer (retry_timeout_ms (current (retry_ holder)) rnd) true) /\
     current (retry_ (on_retry err rnd holder))
       = to_short (current (retry_ holder) + 1) /\
     exists r',
       deliver (on_retry err rnd holder) (TimerFired 0) = Some r' /\
       r' = perform_request Handler_on_retry
                            (disarm_timer (on_retry err rnd holder)) /\
       easy_handler (easy_ r') = Some Handler_on_retry /\
       attempts r' = S (attempts holder)).
Proof.
  destruct (record_attempt_frame err holder) as (He & Hr & Hp & _).
  split; [|split].
  - split.
    + intros H. rewrite (on_retry_finish _ _ _ H), resolutions_on_completed.
      unfold resolutions. now rewrite Hp.
    + intros H. destruct (finish_condition_dec err holder) as [C|C]; [exact C|].
      exfalso. rewrite (on_retry_backoff _ rnd _ C) in H.
      unfold resolutions in H. cbn in H. rewrite Hp in H. lia.
  - intros H. rewrite (on_retry_finish _ _ _ H). split; [reflexivity|].
    now rewrite retry_on_completed, Hr.
  - intros H. rewrite (on_retry_backoff _ _ _ H). cbn. rewrite Hp.
    unfold attempts. cbn. rewrite He.
    repeat split.
    eexists. split; [reflexivity|]. cbn. rewrite He. repeat split.
Qed.

Lemma on_retry_decision_witness :
  let holder :=
    complete_transfer 503
      (async_perform (Request_retry 3 false RequestImpl_new)) in
  ~ finish_condition 0 holder /\
  timer (retry_ (on_retry 0 7 holder)) = Some (mkTimer 25 true) /\
  current (retry_ (on_retry 0 7 holder)) = 2.
Proof.
  cbn zeta.
  assert (Hn : ~ finish_condition 0
                 (complete_transfer 503
                    (async_perform (Request_retry 3 false RequestImpl_new)))).
  { unfold finish_condition. vm_compute. intuition congruence. }
  split; [exact Hn|].
  destruct (on_retry_decision 0 7
              (complete_transfer 503
                 (async_perform (Request_retry 3 false RequestImpl_new))))
    as (_ & _ & H).
  destruct (H Hn) as (_ & _ & Ht & Hc & _).
  split; [exact Ht | exact Hc].
Defined.

(** ** The PUT body feeder *)

Lemma capacity_nonneg c : 0 <= capacity c.
Proof. unfold capacity, to_size_t. apply Z.mod_pos_bound. lia. Qed.

Lemma put_consistent_fresh data r : put_consistent (SetPutMethodData data r).
Proof. unfold put_consistent, put_sent, put_remaining. cbn. lia. Qed.

(** One call of the read callback from a consistent position. *)
Lemma PutMethodReadCallback_step size nmemb r :
  put_consistent r ->
  let '(r', out, n) := PutMethodReadCallback size nmemb r in
  n = Z.min (put_remaining r) (capacity (size, nmemb)) /\
  out = take (Z.to_nat n) (drop (Z.to_nat (put_sent r)) (put_method_data r)) /\
  Z.of_nat (length out) = n /\
  put_method_data r' = put_method_data r /\
  put_sent r' = put_sent r + n /\
  put_remaining r' = put_remaining r - n /\
  put_consistent r'.
Proof.
  intros (H0 & H1 & H2).
  pose proof (capacity_nonneg (size, nmemb)) as Hc.
  unfold PutMethodReadCallback, put_consistent, put_sent, put_remaining in *.
  unfold capacity in *. cbn [fst snd] in *.
  destruct (put_method_cursor r) as [c|] eqn:E; cbn in *.
  - rewrite E. cbn.
    repeat split; try lia.
    rewrite length_take, length_drop. lia.
  - repeat split; try lia.
    rewrite length_take, length_drop. lia.
Qed.

Lemma take_take_drop_Z (a b c : Z) (d : list ascii) :
  0 <= a -> 0 <= b -> 0 <= c ->
  take (Z.to_nat a) (drop (Z.to_nat c) d)
    ++ take (Z.to_nat b) (drop (Z.to_nat (c + a)) d)
  = take (Z.to_nat (a + b)) (drop (Z.to_nat c) d).
Proof.
  intros Ha Hb Hc.
  replace (Z.to_nat (c + a)) with (Z.to_nat c + Z.to_nat a)%nat by lia.
  rewrite <- drop_drop.
  replace (Z.to_nat (a + b)) with (Z.to_nat a + Z.to_nat b)%nat by lia.
  apply take_take_drop.
Qed.

Lemma feed_from caps : forall r,
  put_consistent r ->
  let '(r', outs) := feed caps r in
  let m := Z.min (put_remaining r) (total_capacity caps) in
  concat outs.*1
    = take (Z.to_nat m) (drop (Z.to_nat (put_sent r)) (put_method_data r)) /\
  Z.of_nat (length (concat outs.*1)) = m /\
  put_method_data r' = put_method_data r /\
  put_sent r' = put_sent r + m /\
  put_remaining r' = put_remaining r - m /\
  put_consistent r' /\
  (forall k c out n,
     caps !! k = Some c -> outs !! k = Some (out, n) ->
     n = Z.min (put_remaining r - copied_before k outs) (capacity c) /\
     out = take (Z.to_nat n)
                (drop (Z.to_nat (put_sent r + copied_before k outs))
                      (put_method_data r))).
Proof.
  induction caps as [|[size nmemb] caps IH]; intros r Hr.
  - cbn. destruct Hr as (H0 & H1 & H2).
    rewrite Z.min_r by lia. cbn.
    split_and!; try lia; try reflexivity.
    + now split_and!.
    + intros k c out n Hk. now rewrite lookup_nil in Hk.
  - cbn [feed].
    pose proof (PutMethodReadCallback_step size nmemb r Hr) as Hstep.
    destruct (PutMethodReadCallback size nmemb r) as [[r1 out1] n1].
    destruct Hstep as (Hn & Hout & Hlen & Hd & Hs & Hrem & Hr1).
    specialize (IH r1 Hr1).
    destruct (feed caps r1) as [r2 outs].
    cbn zeta in IH.
    destruct IH as (Hcat & Hclen & Hd2 & Hs2 & Hrem2 & Hr2 & Hcalls).
    pose proof (capacity_nonneg (size, nmemb)) as Hc.
    assert (Htc : 0 <= total_capacity caps).
    { unfold total_capacity. clear. induction caps as [|c caps IH]; cbn; [lia|].
      pose proof (capacity_nonneg c). lia. }
    destruct Hr as (H0 & H1 & H2).
    assert (Hm : Z.min (put_remaining r) (total_capacity ((size, nmemb) :: caps))
                 = n1 + Z.min (put_remaining r1) (total_capacity caps)).
    { unfold total_capacity in *. cbn [fmap list_fmap foldr]. lia. }
    cbn zeta. rewrite Hm.
    cbn [fmap list_fmap fst concat].
    split_and!.
    + rewrite Hcat, Hout, Hd, Hs.
      apply take_take_drop_Z; lia.
    + rewrite length_app. lia.
    + congruence.
    + lia.
    + lia.
    + exact Hr2.
    + intros k c out n Hk Ho.
      destruct k as [|k]; cbn in Hk, Ho.
      * injection Hk as <-. injection Ho as <- <-.
        unfold copied_before. cbn. rewrite Z.sub_0_r, Z.add_0_r. now split.
      * destruct (Hcalls k c out n Hk Ho) as [E1 E2].
        unfold copied_before in *. cbn [take fmap list_fmap fst concat].
        rewrite length_app. split.
        -- rewrite E1. lia.
        -- rewrite E2, Hd, Hs. do 3 f_equal. lia.
Qed.

Lemma feed_length caps : forall r, length (feed caps r).2 = length caps.
Proof.
  induction caps as [|[size nmemb] caps IH]; intros r; [reflexivity|].
  cbn [feed]. destruct (PutMethodReadCallback size nmemb r) as [[r1 o] n].
  specialize (IH r1). destruct (feed caps r1) as [r2 outs]. cbn in *. lia.
Qed.

Lemma feed_drained caps : forall r,
  put_consistent r -> put_remaining r = 0 ->
  Forall (fun o => o = ([], 0)) (feed caps r).2.
Proof.
  induction caps as [|[size nmemb] caps IH]; intros r Hr H0; [constructor|].
  cbn [feed].
  pose proof (PutMethodReadCallback_step size nmemb r Hr) as Hstep.
  destruct (PutMethodReadCallback size nmemb r) as [[r1 o] n].
  destruct Hstep as (Hn & Hout & _ & _ & _ & Hrem & Hr1).
  pose proof (capacity_nonneg (size, nmemb)) as Hc.
  assert (n = 0) as -> by lia.
  specialize (IH r1 Hr1 ltac:(lia)).
  destruct (feed caps r1) as [r2 outs]. cbn in *.
  constructor; [now subst o | exact IH].
Qed.

(** The first attempt.  From the feeder as [SetPutMethodData] leaves it
    (null cursor), for any payload and any sequence of read-callback buffers
    whose capacities sum to at least the payload size, every call of
    [PutMethodReadCallback] returns [min(remaining, capacity)] and copies
    exactly that many payload bytes, continuing where the previous call
    stopped; the copied pieces concatenate to the payload; every call made
    afterwards copies nothing and returns 0. *)
Theorem PutMethodReadCallback_streams_payload
    (data : list ascii) (r : RequestImpl) (caps : list (Z * Z)) :
  Z.of_nat (length data) <= total_capacity caps ->
  let r' := (feed caps (SetPutMethodData data r)).1 in
  let outs := (feed caps (SetPutMethodData data r)).2 in
  length outs = length caps /\
  (forall k c out n,
     caps !! k = Some c -> outs !! k = Some (out, n) ->
     n = Z.min (Z.of_nat (length data) - copied_before k outs) (capacity c) /\
     out = take (Z.to_nat n) (drop (Z.to_nat (copied_before k outs)) data)) /\
  concat outs.*1 = data /\
  (forall more, Forall (fun o => o = ([], 0)) (feed more r').2).
Proof.
  intros Hcap. cbn zeta.
  pose proof (feed_length caps (SetPutMethodData data r)) as Hlen.
  pose proof (feed_from caps _ (put_consistent_fresh data r)) as H.
  destruct (feed caps (SetPutMethodData data r)) as [r' outs].
  cbn zeta in H. cbn [fst snd] in *.
  change (put_remaining (SetPutMethodData data r))
    with (Z.of_nat (length data)) in H.
  change (put_sent (SetPutMethodData data r)) with 0 in H.
  change (put_method_data (SetPutMethodData data r)) with data in H.
  rewrite Z.min_l in H by exact Hcap.
  destruct H as (Hcat & _ & _ & _ & Hrem & Hr' & Hcalls).
  split_and!.
  - exact Hlen.
  - intros k c out n Hk Ho. exact (Hcalls k c out n Hk Ho).
  - rewrite Hcat. cbn. rewrite Nat2Z.id. apply firstn_all.
  - intros more. apply feed_drained; [exact Hr' | lia].
Qed.

Lemma PutMethodReadCallback_streams_payload_witness :
  let data := list_ascii_of_string "hello" in
  let caps := [(1, 2); (1, 0); (1, 8)] in
  Z.of_nat (length data) <= total_capacity caps /\
  (feed caps (SetPutMethodData data RequestImpl_new)).2
    = [(list_ascii_of_string "he", 2); ([], 0);
       (list_ascii_of_string "llo", 3)] /\
  concat (feed caps (SetPutMethodData data RequestImpl_new)).2.*1 = data.
Proof.
  cbn zeta.
  split; [vm_compute; discriminate|].
  split; [vm_compute; reflexivity|].
  apply (PutMethodReadCallback_streams_payload
           (list_ascii_of_string "hello") RequestImpl_new
           [(1, 2); (1, 0); (1, 8)]).
  vm_compute; discriminate.
Defined.

(** C7 does not hold of a retry attempt.  [perform_request] resubmits the
    upload without clearing the cursor, and [PutMethodReadCallback] fills
    its metadata only when the cursor is null, so a retry attempt goes on
    from where the attempt before it stopped.  With the body "ab" and two
    attempts stored: when the first attempt has read the whole body before
    its 500, the one read callback of the second attempt, with room for 32
    bytes, copies nothing and returns 0; when the first attempt has read
    one byte, the second attempt copies "b" alone.  In neither case do the
    pieces copied within the second attempt concatenate to the payload,
    although the capacity offered covers it. *)
Lemma retry_attempt_does_not_stream_payload :
  let body := list_ascii_of_string "ab" in
  let r0 := async_perform
              (Request_retry 2 false (Request_put body RequestImpl_new)) in
  (exists r,
     exec r0 [ReadData 1 16; TransferDone 0 500 0; TimerFired 0] = Some r /\
     in_flight r = true /\ attempts r = 2%nat /\
     Z.of_nat (length body) <= total_capacity [(1, 32)] /\
     (feed [(1, 32)] r).2 = [([], 0)] /\
     concat (feed [(1, 32)] r).2.*1 <> body) /\
  (exists r,
     exec r0 [ReadData 1 1; TransferDone 0 500 0; TimerFired 0] = Some r /\
     in_flight r = true /\ attempts r = 2%nat /\
     Z.of_nat (length body) <= total_capacity [(1, 32)] /\
     (feed [(1, 32)] r).2 = [(list_ascii_of_string "b", 1)] /\
     concat (feed [(1, 32)] r).2.*1 <> body).
Proof.
  cbn zeta. split; eexists; (split; [vm_compute; reflexivity|]);
    vm_compute; split_and!; try reflexivity; discriminate.
Qed.

(** ** The header parser *)

Lemma rfind_not_space_trailing l ws : all_trailing ws ->
  forall k, (k <= length ws)%nat ->
  rfind_not_space (l ++ ws) (length l + k) = rfind_not_space (l ++ ws) (length l).
Proof.
  intros Hws. induction k as [|k IH]; intros Hk.
  - now rewrite Nat.add_0_r.
  - rewrite Nat.add_succ_r. cbn [rfind_not_space].
    rewrite app_nth2 by lia.
    replace (length l + k - length l)%nat with k by lia.
    assert (Ht : is_trailing (nth k ws NUL) = true).
    { unfold all_trailing in Hws. rewrite Forall_forall in Hws.
      apply Hws. apply list_elem_of_In, nth_In. lia. }
    rewrite Ht. apply IH. lia.
Qed.

Lemma rfind_not_space_visible l ws :
  l <> [] -> ends_visibly l ->
  rfind_not_space (l ++ ws) (length l) = length l.
Proof.
  intros Hne Hl. destruct (length l) as [|p] eqn:E.
  - destruct l; [congruence | discriminate].
  - cbn [rfind_not_space].
    rewrite app_nth1 by lia.
    assert (Hlast : last l = Some (nth p l NUL)).
    { rewrite last_lookup, E. cbn.
      destruct (nth_lookup_or_length l p NUL) as [H|H]; [exact H | lia]. }
    now rewrite (Hl _ Hlast).
Qed.

Lemma rfind_not_space_line l ws :
  l <> [] -> ends_visibly l -> all_trailing ws ->
  rfind_not_space (l ++ ws) (length (l ++ ws)) = length l.
Proof.
  intros Hne Hl Hws. rewrite length_app.
  rewrite (rfind_not_space_trailing l ws Hws) by lia.
  now apply rfind_not_space_visible.
Qed.

Lemma rfind_not_space_blank ws :
  all_trailing ws -> rfind_not_space ws (length ws) = O.
Proof.
  intros Hws.
  exact (rfind_not_space_trailing [] ws Hws (length ws) (le_n _)).
Qed.

Lemma strchr_found K rest :
  COLON ∉ K -> NUL ∉ K -> strchr (K ++ COLON :: rest) COLON = Some (length K).
Proof.
  induction K as [|x K IH]; intros Hc Hn; [reflexivity|].
  cbn [app strchr length].
  apply not_elem_of_cons in Hc as [Hx Hc].
  apply not_elem_of_cons in Hn as [Hx0 Hn].
  destruct (Ascii.eqb_spec x COLON) as [->|_]; [congruence|].
  destruct (Ascii.eqb_spec x NUL) as [->|_]; [congruence|].
  now rewrite (IH Hc Hn).
Qed.

Lemma strchr_absent l : COLON ∉ l -> strchr l COLON = None.
Proof.
  induction l as [|x l IH]; intros Hc; [reflexivity|].
  apply not_elem_of_cons in Hc as [Hx Hc]. cbn [strchr].
  destruct (Ascii.eqb_spec x COLON) as [->|_]; [congruence|].
  destruct (Ascii.eqb x NUL); [reflexivity|].
  now rewrite (IH Hc).
Qed.

Lemma terminator_adds_no_colon (l : list ascii) (e : nat) :
  COLON ∉ l -> COLON ∉ <[e := NUL]> l.
Proof.
  revert e. induction l as [|x l IH]; intros e Hc; [exact Hc|].
  apply not_elem_of_cons in Hc as [Hx Hc].
  destruct e as [|e]; cbn; apply not_elem_of_cons; split; auto.
Qed.

Lemma parse_header_map_entry (K W ws : list ascii) (h : gmap string string) :
  COLON ∉ K -> NUL ∉ K -> ends_visibly W -> all_trailing ws ->
  parse_header_map (K ++ COLON :: W ++ ws) (length (K ++ COLON :: W ++ ws)) h
  = <[string_of_list_ascii K := string_of_list_ascii W]> h.
Proof.
  intros Hc Hn HW Hws.
  assert (Hvis : ends_visibly (K ++ COLON :: W)).
  { intros c Hlast.
    destruct W as [|w W] using rev_ind.
    - rewrite last_snoc in Hlast. injection Hlast as <-. reflexivity.
    - apply HW. rewrite last_snoc.
      change (K ++ COLON :: W ++ [w]) with (K ++ (COLON :: W) ++ [w]) in Hlast.
      rewrite app_assoc, last_snoc in Hlast. exact Hlast. }
  assert (Hne : K ++ COLON :: W <> []) by (now destruct K).
  unfold parse_header_map.
  replace (K ++ COLON :: W ++ ws) with ((K ++ COLON :: W) ++ ws)
    by (now rewrite <- app_assoc).
  rewrite (rfind_not_space_line _ ws Hne Hvis Hws).
  destruct (Nat.eqb_spec (length (K ++ COLON :: W)) 0) as [E|_].
  { destruct K; discriminate. }
  assert (Hins : <[length (K ++ COLON :: W) := NUL]> ((K ++ COLON :: W) ++ ws)
                 = K ++ COLON :: W ++ <[O := NUL]> ws).
  { rewrite insert_app_r_alt by lia. rewrite Nat.sub_diag, <- app_assoc.
    reflexivity. }
  rewrite Hins. clear Hins.
  rewrite strchr_found by assumption.
  rewrite take_app_length.
  replace (length K + 1)%nat with (length K + 1 + 0)%nat by lia.
  change (K ++ COLON :: W ++ <[O := NUL]> ws)
    with (K ++ [COLON] ++ W ++ <[O := NUL]> ws).
  rewrite (app_assoc K), drop_app_add' by (rewrite length_app; cbn; lia).
  cbn [drop].
  replace (length (K ++ COLON :: W) - length K - 1)%nat with (length W)
    by (rewrite length_app; cbn; lia).
  rewrite drop_0. now rewrite take_app_length.
Qed.

Lemma parse_header_map_no_colon (l : list ascii) (h : gmap string string) :
  COLON ∉ l -> parse_header_map l (length l) h = h.
Proof.
  intros Hc. unfold parse_header_map.
  destruct (Nat.eqb _ _); [reflexivity|].
  now rewrite (strchr_absent _ (terminator_adds_no_colon l _ Hc)).
Qed.

Lemma parse_header_map_blank (ws : list ascii) (h : gmap string string) :
  all_trailing ws -> parse_header_map ws (length ws) h = h.
Proof.
  intros Hws. unfold parse_header_map.
  now rewrite (rfind_not_space_blank ws Hws).
Qed.

Lemma headers_after_map ptr r resp :
  response_ r = Some resp ->
  headers_after ptr r = Some (parse_header_map ptr (length ptr) (headers resp)).
Proof. intros H. unfold headers_after, parse_header. now rewrite H. Qed.

(** C8, as the code has it: for a header line [K: V] followed by CR LF,
    where [K] holds no colon and no NUL and [V] is not empty and does not end
    in a space, CR or LF, [parse_header] stores [K] with the value made of
    everything after the colon — the space included, [" V"] — into the
    current response's header map; more generally the value is the text
    between the first colon and the trailing run of spaces, CRs and LFs.  A
    line without a colon, and a line of spaces, CRs and LFs only, store
    nothing. *)
Theorem parse_header_stores_suffix (r : RequestImpl) (resp : Response) :
  response_ r = Some resp ->
  (forall K V : list ascii,
     COLON ∉ K -> NUL ∉ K -> V <> [] -> ends_visibly V ->
     headers_after (K ++ COLON :: SP :: V ++ [CR; LF]) r
     = Some (<[string_of_list_ascii K := string_of_list_ascii (SP :: V)]>
               (headers resp))) /\
  (forall K W ws : list ascii,
     COLON ∉ K -> NUL ∉ K -> ends_visibly W -> all_trailing ws ->
     headers_after (K ++ COLON :: W ++ ws) r
     = Some (<[string_of_list_ascii K := string_of_list_ascii W]>
               (headers resp))) /\
  (forall l : list ascii,
     COLON ∉ l -> headers_after l r = Some (headers resp)) /\
  (forall ws : list ascii,
     all_trailing ws -> headers_after ws r = Some (headers resp)).
Proof.
  intros Hresp. split_and!.
  - intros K V Hc Hn Hne HV.
    rewrite (headers_after_map _ _ _ Hresp). f_equal.
    apply (parse_header_map_entry K (SP :: V) [CR; LF]); try assumption.
    + intros c Hlast. apply HV. destruct V; [congruence | exact Hlast].
    + repeat constructor.
  - intros K W ws Hc Hn HW Hws.
    rewrite (headers_after_map _ _ _ Hresp). f_equal.
    now apply parse_header_map_entry.
  - intros l Hc. rewrite (headers_after_map _ _ _ Hresp). f_equal.
    now apply parse_header_map_no_colon.
  - intros ws Hws. rewrite (headers_after_map _ _ _ Hresp). f_equal.
    now apply parse_header_map_blank.
Qed.

Lemma parse_header_stores_suffix_witness :
  let r := perform_request Handler_on_completed RequestImpl_new in
  response_ r = Some (mkResponse ∅ []) /\
  headers_after (list_ascii_of_string "Host: example.org" ++ [CR; LF]) r
  = Some {[ "Host"%string := " example.org"%string ]}.
Proof.
  cbn zeta. split; [reflexivity|].
  destruct (parse_header_stores_suffix
              (perform_request Handler_on_completed RequestImpl_new)
              (mkResponse ∅ []) eq_refl) as (H & _).
  apply (H (list_ascii_of_string "Host") (list_ascii_of_string "example.org")).
  - vm_compute. intros C. repeat (inversion C as [|? ? ? C']; clear C; rename C' into C; subst).
  - vm_compute. intros C. repeat (inversion C as [|? ? ? C']; clear C; rename C' into C; subst).
  - discriminate.
  - intros c Hc. injection Hc as <-. reflexivity.
Defined.

(** C8, as stated, fails: for the line [K: V] CR LF the stored value is
    [" V"], with the space that follows the colon, not ["V"]. *)
Lemma parse_header_keeps_leading_space :
  headers_after ["K"; ":"; " "; "V"; CR; LF]%char
                (perform_request Handler_on_completed RequestImpl_new)
  <> Some {[ "K"%string := "V"%string ]}.
Proof.
  intros H.
  assert (E : headers_after ["K"; ":"; " "; "V"; CR; LF]%char
                (perform_request Handler_on_completed RequestImpl_new)
              ≫= (fun m => m !! "K"%string) = Some "V"%string).
  { rewrite H. reflexivity. }
  vm_compute in E. discriminate E.
Qed.

(** ** The backoff delay *)

Lemma backoff_window_pos i : 1 <= i -> 0 < 2 ^ Z.min (i - 1) 5.
Proof. intros H. apply Z.pow_pos_nonneg; lia. Qed.

Lemma retry_timeout_ms_eq i rnd :
  1 <= i -> 0 <= rnd ->
  retry_timeout_ms i rnd = 25 * (rnd mod 2 ^ Z.min (i - 1) 5 + 1).
Proof.
  intros Hi Hr. unfold retry_timeout_ms, kEBBaseTime, kMaxRetryInTimeout.
  rewrite Z.shiftl_1_l.
  pose proof (backoff_window_pos i Hi).
  rewrite Z.rem_mod_nonneg by lia. reflexivity.
Qed.

(** C4, as the code has it: with [i >= 1] attempts used, the delay before
    the next attempt is [25 * (u + 1)] ms where [u = rand() mod
    2^min(i-1,5)], an integer of the range [0 .. 2^min(i-1,5) - 1]: the
    upper end [2^min(i-1,5)] itself is excluded.  Every [u] of that range is
    the result of some value of [rand()], and this is the delay of the timer
    that [on_retry] arms. *)
Theorem retry_timeout_ms_window (i rnd : Z) :
  1 <= i -> 0 <= rnd ->
  let w := 2 ^ Z.min (i - 1) 5 in
  retry_timeout_ms i rnd = 25 * (rnd mod w + 1) /\
  0 <= rnd mod w <= w - 1 /\
  (forall u, 0 <= u <= w - 1 -> retry_timeout_ms i u = 25 * (u + 1)) /\
  (forall err holder,
     current (retry_ holder) = i -> ~ finish_condition err holder ->
     timer (retry_ (on_retry err rnd holder))
     = Some (mkTimer (25 * (rnd mod w + 1)) true)).
Proof.
  intros Hi Hr w. pose proof (backoff_window_pos i Hi) as Hw. fold w in Hw.
  split_and!.
  - now apply retry_timeout_ms_eq.
  - pose proof (Z.mod_pos_bound rnd w Hw). lia.
  - pose proof (Z.mod_pos_bound rnd w Hw). lia.
  - intros u Hu. rewrite retry_timeout_ms_eq by lia. fold w.
    rewrite Z.mod_small by lia. reflexivity.
  - intros err holder Hc Hn.
    rewrite (on_retry_backoff _ _ _ Hn). cbn.
    rewrite Hc, retry_timeout_ms_eq by lia. reflexivity.
Qed.

Lemma retry_timeout_ms_window_witness :
  retry_timeout_ms 3 2147483647 = 25 * (2147483647 mod 4 + 1) /\
  retry_timeout_ms 3 2147483647 = 100.
Proof.
  split; [|reflexivity].
  apply (retry_timeout_ms_window 3 2147483647); lia.
Defined.

(** C4, as stated, fails: after the first attempt the window holds the
    single value [u = 0]; no value of [rand()] gives [u = 2^0 = 1], that is
    a delay of 50 ms. *)
Lemma first_backoff_is_never_50 :
  ~ (forall u, 0 <= u <= 2 ^ Z.min (1 - 1) 5 ->
       exists rnd, 0 <= rnd /\ retry_timeout_ms 1 rnd = 25 * (u + 1)).
Proof.
  intros H. destruct (H 1 ltac:(cbn; lia)) as (rnd & _ & E).
  unfold retry_timeout_ms in E. cbn in E. rewrite Z.rem_1_r in E. discriminate.
Qed.

(** ** The aggregate deadline *)

Lemma max_retry_time_loop_sum number : forall fuel i time_ms,
  1 <= i -> (Z.to_nat (number - i) <= fuel)%nat ->
  max_retry_time_loop fuel i number time_ms
  = time_ms +
    foldr Z.add 0
      ((fun j => kEBBaseTime * (2 ^ Z.min (j - 1) 5 + 1)) <$> seqZ i (number - i)).
Proof.
  induction fuel as [|fuel IH]; intros i acc Hi Hf.
  - cbn. rewrite seqZ_nil by lia. cbn. lia.
  - cbn [max_retry_time_loop].
    destruct (Z.ltb_spec i number) as [Hlt|Hge].
    + rewrite IH by lia.
      rewrite (seqZ_cons i (number - i)) by lia.
      cbn [fmap list_fmap foldr].
      rewrite Z.shiftl_1_l. unfold kMaxRetryInTimeout.
      replace (Z.pred (number - i)) with (number - (i + 1)) by lia.
      replace (Z.succ i) with (i + 1) by lia. lia.
    + rewrite seqZ_nil by lia. cbn. lia.
Qed.

Lemma max_retry_time_sum number : max_retry_time number = backoff_budget number.
Proof.
  unfold max_retry_time, backoff_budget.
  rewrite max_retry_time_loop_sum by lia. lia.
Qed.

Lemma complete_timeout_agrees_upto_spec tmax nmax :
  complete_timeout_agrees_upto tmax nmax = true ->
  forall t n, 0 <= t <= tmax -> 1 <= n <= nmax ->
  complete_timeout t n = floor_complete_timeout t n.
Proof.
  unfold complete_timeout_agrees_upto. intros H t n Ht Hn.
  rewrite forallb_forall in H.
  assert (Hin : In t (seqZ 0 (tmax + 1))).
  { apply list_elem_of_In, elem_of_seqZ. lia. }
  specialize (H t Hin). rewrite forallb_forall in H.
  assert (Hin' : In n (seqZ 1 nmax)).
  { apply list_elem_of_In, elem_of_seqZ. lia. }
  specialize (H n Hin'). unfold complete_timeout_agrees in H.
  now apply Z.eqb_eq in H.
Qed.

(** C5, as the code has it: the timeout that [Request::async_perform]
    attaches is [complete_timeout] of the stored per-attempt timeout and
    attempt count, which is the conversion to [long] — the fractional part
    is dropped, not rounded up — of the [double] value of
    [t * 1.1 * n + Σ_{i=1..n-1} 25 * (2^min(i-1,5) + 1)]; the loop of
    [max_retry_time] computes that sum.  For [0 <= t <= 2000] and
    [1 <= n <= 8] the result is [floor(11·t·n / 10)] plus the sum. *)
Theorem complete_timeout_truncates (r : RequestImpl) :
  Request_async_perform_timeout r
    = complete_timeout (timeout_ms_ r) (retries (retry_ r)) /\
  (forall t n,
     complete_timeout t n
     = double_to_long (deadline_double t n (backoff_budget (to_short n)))) /\
  (forall n, max_retry_time n = backoff_budget n) /\
  (forall t n, 0 <= t <= 2000 -> 1 <= n <= 8 ->
     complete_timeout t n = 11 * t * n / 10 + backoff_budget n).
Proof.
  split_and!.
  - reflexivity.
  - intros t n. unfold complete_timeout. now rewrite max_retry_time_sum.
  - exact max_retry_time_sum.
  - apply (complete_timeout_agrees_upto_spec 2000 8).
    vm_compute. reflexivity.
Qed.

Lemma complete_timeout_truncates_witness :
  0 <= 1000 <= 2000 /\ 1 <= 3 <= 8 /\
  complete_timeout 1000 3 = 11 * 1000 * 3 / 10 + backoff_budget 3.
Proof.
  split; [lia|]. split; [lia|].
  destruct (complete_timeout_truncates RequestImpl_new) as (_ & _ & _ & H).
  apply H; lia.
Defined.

(** C5, as stated, fails: with a timeout of 1 ms and one attempt the value
    is [1.1], which the code turns into 1 and the ceiling into 2. *)
Lemma complete_timeout_is_not_ceiling :
  Request_async_perform_timeout (set_timeout 1 RequestImpl_new)
  <> spec_complete_timeout 1 1.
Proof. vm_compute. discriminate. Qed.

(** ** Single resolution and the bound on attempts *)

Lemma deliver_effect r ev r' : deliver r ev = Some r' -> effect_of r ev r'.
Proof.
  destruct ev as [err code rnd|err|ptr size nmemb|size nmemb]; cbn [deliver].
  - destruct (easy_handler (easy_ r)) as [[|]|] eqn:Eh; [| |discriminate];
      intros [= <-].
    + eapply effect_finish; eauto; try discriminate.
      * now rewrite easy_on_completed.
      * unfold attempts. now rewrite easy_on_completed.
      * now rewrite retry_on_completed.
      * now rewrite resolutions_on_completed.
    + destruct (finish_condition_dec err (complete_transfer code r)) as [F|F].
      * rewrite (on_retry_finish _ _ _ F).
        destruct (record_attempt_frame err (complete_transfer code r))
          as (He & Hr & Hp & _).
        eapply effect_finish; eauto.
        -- now rewrite easy_on_completed, He.
        -- unfold attempts. now rewrite easy_on_completed, He.
        -- now rewrite retry_on_completed, Hr.
        -- rewrite resolutions_on_completed. unfold resolutions.
           now rewrite Hp.
      * rewrite (on_retry_backoff _ _ _ F).
        destruct (record_attempt_frame err (complete_transfer code r))
          as (He & Hr & Hp & _).
        eapply effect_backoff; eauto; unfold attempts; cbn;
          rewrite ?He, ?Hp; reflexivity.
  - destruct (timer_pending r) eqn:Et; [|discriminate]. intros [= <-].
    unfold on_retry_timer.
    destruct (is_error err) eqn:Ee; cbn.
    + apply is_error_true in Ee. eapply effect_timer_failed; eauto.
      * now rewrite easy_on_completed.
      * now rewrite retry_on_completed.
      * now rewrite resolutions_on_completed.
    + apply is_error_false in Ee. subst err.
      eapply effect_resubmit; eauto.
  - destruct (in_flight r) eqn:Ef; [|discriminate].
    destruct (header_function (easy_ r)); [|discriminate]. intros [= <-].
    apply effect_data; auto; unfold parse_header;
      destruct (response_ r); reflexivity.
  - destruct (in_flight r) eqn:Ef; [|discriminate].
    destruct (read_function (easy_ r)); [|discriminate]. intros [= <-].
    apply effect_data; auto; unfold PutMethodReadCallback;
      destruct (put_method_cursor r); reflexivity.
Qed.

Lemma backoff_needs_room err code r :
  ~ finish_condition err (complete_transfer code r) ->
  current (retry_ r) < retries (retry_ r) /\
  retry_worthy (on_fails (retry_ r)) err code.
Proof.
  unfold finish_condition, retry_worthy, get_response_code. cbn.
  intros H. destruct (on_fails (retry_ r)); split; try lia;
    destruct (Z.eq_dec err 0); try lia;
    destruct (Z_lt_ge_dec code 500); try lia;
    exfalso; apply H; auto.
Qed.

Lemma request_inv_step r ev r' :
  request_inv r -> effect_of r ev r' ->
  request_inv r' /\
  (budget r' + (if is_completion ev then 1 else 0) <= budget r)%nat /\
  retries (retry_ r') = retries (retry_ r) /\
  on_fails (retry_ r') = on_fails (retry_ r) /\
  current (retry_ r) <= current (retry_ r') /\
  (attempts r <= attempts r' <= S (attempts r))%nat.
Proof.
  intros Hinv Heff.
  destruct Heff as [ev r' Hev Hfl He Hr Hp
                   |err code rnd h r' Hh Hfin Hh' Ha Hr Hres
                   |err code rnd r' Hh Hgo Hh' Ha Hr Hp
                   |r' Ht Hh' Ha Hr Hp
                   |err r' Herr Ht He Hr Hres];
    unfold request_inv, budget, in_flight, timer_pending, attempts,
      resolutions in *; cbn zeta in *.
  - rewrite He, Hr, Hp, Hev.
    destruct (easy_handler (easy_ r)) as [[|]|];
      destruct (timer (retry_ r)) as [[d [|]]|]; cbn in *;
      try discriminate; try tauto; split_and!; try reflexivity; lia.
  - rewrite Hh', Hr, Hres. rewrite Hh in Hinv |- *.
    unfold attempts in Ha. rewrite Ha.
    destruct (timer (retry_ r)) as [[d [|]]|]; cbn in *;
      destruct h; split_and!; try reflexivity; lia.
  - apply backoff_needs_room in Hgo as [Hroom _].
    rewrite Hh', Hr, Hp. rewrite Hh in Hinv |- *. cbn.
    unfold attempts in Ha. rewrite Ha.
    destruct Hinv as (HR & H1 & Hm).
    rewrite to_short_small by
      (destruct (timer (retry_ r)) as [[d [|]]|]; cbn in *; lia).
    destruct (timer (retry_ r)) as [[d [|]]|]; cbn in *; split_and!; try reflexivity; lia.
  - unfold disarm_timer in Hr. cbn in Hr.
    rewrite Hh', Hr, Hp. cbn.
    unfold attempts in Ha. rewrite Ha.
    destruct (easy_handler (easy_ r)) as [h|];
      destruct (timer (retry_ r)) as [[d [|]]|]; cbn in *;
      try discriminate; try tauto.
    split_and!; try reflexivity; lia.
  - unfold disarm_timer in Hr. cbn in Hr.
    rewrite He, Hr, Hres. cbn.
    destruct (easy_handler (easy_ r)) as [h|];
      destruct (timer (retry_ r)) as [[d [|]]|]; cbn in *;
      try discriminate; try tauto.
    split_and!; try reflexivity; lia.
Qed.

Lemma unsubmitted_apply_call r c : unsubmitted r -> unsubmitted (apply_call r c).
Proof.
  intros (Hp & Hh & Ha & Ht & Hc & HR).
  destruct c as [t|n f|d]; unfold unsubmitted; cbn; split_and!; try assumption;
    try reflexivity; try lia.
  - apply to_short_range.
  - apply to_short_range.
Qed.

Lemma unsubmitted_configure calls : unsubmitted (configure calls).
Proof.
  unfold configure.
  assert (H0 : unsubmitted RequestImpl_new) by (unfold unsubmitted; cbn; split_and!; auto; lia).
  revert H0. generalize RequestImpl_new.
  induction calls as [|c calls IH]; intros r Hr; [exact Hr|].
  cbn. apply IH. now apply unsubmitted_apply_call.
Qed.

Lemma async_perform_establishes r :
  unsubmitted r ->
  request_inv (async_perform r) /\
  budget (async_perform r)
    = Z.to_nat (2 * Z.max 1 (retries (retry_ r)) - 1) /\
  retry_ (async_perform r) = retry_ r /\
  attempts (async_perform r) = 1%nat /\
  pending (async_perform r) = true.
Proof.
  intros (Hp & Hh & Ha & Ht & Hc & HR).
  unfold async_perform. cbn.
  destruct (Z.leb_spec (retries (retry_ r)) 1) as [Hle|Hgt];
    unfold request_inv, budget, timer_pending, attempts, resolutions, pending,
      in_flight; cbn; rewrite ?Hp, ?Ha, ?Ht, ?Hc; cbn; split_and!;
    try reflexivity; lia.
Qed.

Lemma exec_invariant evs : forall r r',
  request_inv r -> exec r evs = Some r' ->
  request_inv r' /\
  (budget r' + completions evs <= budget r)%nat /\
  retries (retry_ r') = retries (retry_ r) /\
  on_fails (retry_ r') = on_fails (retry_ r) /\
  current (retry_ r) <= current (retry_ r') /\
  (attempts r <= attempts r')%nat.
Proof.
  induction evs as [|ev evs IH]; intros r r' Hinv Hex; cbn in Hex.
  - injection Hex as <-. cbn. split_and!; try reflexivity; try lia; exact Hinv.
  - destruct (deliver r ev) as [r1|] eqn:Ed; [|discriminate].
    destruct (request_inv_step r ev r1 Hinv (deliver_effect _ _ _ Ed))
      as (Hinv1 & Hb & HR & Hf & Hc & Ha).
    destruct (IH r1 r' Hinv1 Hex) as (Hinv' & Hb' & HR' & Hf' & Hc' & Ha').
    cbn [completions]. split_and!; try congruence; try lia; exact Hinv'.
Qed.

Lemma budget_zero r : budget r = 0%nat <-> pending r = false.
Proof.
  unfold budget, pending, in_flight.
  destruct (easy_handler (easy_ r)) as [[|]|]; cbn;
    destruct (timer_pending r); cbn; split; intros; try lia; try discriminate;
    reflexivity.
Qed.

Lemma request_inv_resolutions r :
  request_inv r -> resolutions r = if pending r then 0%nat else 1%nat.
Proof.
  unfold request_inv, pending, in_flight. intros (_ & _ & H).
  destruct (easy_handler (easy_ r)); destruct (timer_pending r); cbn;
    tauto.
Qed.

Lemma request_inv_progress r :
  pending r = true ->
  exists ev r', is_completion ev = true /\ deliver r ev = Some r'.
Proof.
  unfold pending, in_flight. intros H.
  destruct (easy_handler (easy_ r)) as [h|] eqn:Eh.
  - exists (TransferDone 0 0 0). cbn. rewrite Eh. destruct h; eauto.
  - cbn in H. exists (TimerFired 0). cbn. rewrite H. eauto.
Qed.

Lemma deliver_terminal r ev : pending r = false -> deliver r ev = None.
Proof.
  unfold pending, in_flight. intros H.
  destruct (easy_handler (easy_ r)) as [h|] eqn:Eh; [discriminate|].
  cbn in H. destruct ev; cbn; unfold in_flight; rewrite ?Eh, ?H; reflexivity.
Qed.

Lemma next_event_pending env r :
  pending r = true ->
  exists ev r',
    next_event env r = Some ev /\ is_completion ev = true /\
    deliver r ev = Some r'.
Proof.
  unfold pending, in_flight, next_event. intros H.
  destruct (easy_handler (easy_ r)) as [h|] eqn:Eh.
  - destruct (env (attempts r)).1 as [[err code] rnd].
    destruct h; eexists _, _; (split; [reflexivity|]);
      (split; [reflexivity|]); cbn; rewrite Eh; reflexivity.
  - cbn in H. rewrite H. eexists _, _. split; [reflexivity|].
    split; [reflexivity|]. cbn. rewrite H. reflexivity.
Qed.

Lemma exec_snoc evs : forall r ev r1 r',
  exec r evs = Some r1 -> deliver r1 ev = Some r' ->
  exec r (evs ++ [ev]) = Some r'.
Proof.
  induction evs as [|e evs IH]; intros r ev r1 r' H1 H2; cbn in *.
  - injection H1 as ->. now rewrite H2.
  - destruct (deliver r e) as [r2|]; [|discriminate]. eapply IH; eauto.
Qed.

Lemma exec_snoc_inv evs : forall r ev r',
  exec r (evs ++ [ev]) = Some r' ->
  exists r1, exec r evs = Some r1 /\ deliver r1 ev = Some r'.
Proof.
  induction evs as [|e evs IH]; intros r ev r' H; cbn in *.
  - destruct (deliver r ev) as [r1|] eqn:E; [|discriminate].
    injection H as <-. eauto.
  - destruct (deliver r e) as [r2|]; [|discriminate]. now apply IH.
Qed.

Lemma run_terminates env : forall fuel r,
  request_inv r -> (budget r <= fuel)%nat ->
  pending (run fuel env r) = false /\
  exists evs, exec r evs = Some (run fuel env r).
Proof.
  induction fuel as [|fuel IH]; intros r Hinv Hb.
  - cbn. split; [apply budget_zero; lia | now exists []].
  - cbn [run]. destruct (pending r) eqn:Ep.
    + destruct (next_event_pending env r Ep) as (ev & r' & -> & Hc & Hd).
      rewrite Hd.
      destruct (request_inv_step r ev r' Hinv (deliver_effect _ _ _ Hd))
        as (Hinv' & Hb' & _).
      rewrite Hc in Hb'.
      destruct (IH r' Hinv' ltac:(lia)) as (Hp & evs & Hex).
      split; [exact Hp|]. exists (ev :: evs). cbn. now rewrite Hd.
    + assert (Hn : next_event env r = None).
      { unfold pending, in_flight, next_event in *.
        destruct (easy_handler (easy_ r)); [discriminate|].
        cbn in Ep. now rewrite Ep. }
      rewrite Hn. split; [exact Ep | now exists []].
Qed.

(** C1: once [async_perform] has been called on a configured request, the
    promise is resolved exactly once.  Along every sequence of callbacks the
    engine and the timer can deliver (completions, timer callbacks, header
    and read callbacks in between) the number of [set_value] /
    [set_exception] calls is 0 while a callback is still owed and 1 as soon
    as none is; while one is owed it can be delivered, and afterwards nothing
    can; an execution holds at most [2 * max(1, retries) - 1] completion and
    timer callbacks.  Hence, whatever error codes, response codes and
    [rand()] values the callbacks carry (success, transport error,
    cancellation), the request driven to its end has resolved its promise
    once. *)
Theorem promise_resolved_exactly_once (calls : list BuilderCall) :
  let r0 := async_perform (configure calls) in
  (forall evs r, exec r0 evs = Some r ->
     resolutions r = (if pending r then 0%nat else 1%nat) /\
     (budget r + completions evs <= budget r0)%nat /\
     (pending r = true ->
      exists ev r', is_completion ev = true /\ deliver r ev = Some r') /\
     (pending r = false -> forall ev, deliver r ev = None)) /\
  budget r0 = Z.to_nat (2 * Z.max 1 (retries (retry_ r0)) - 1) /\
  (forall env,
     let final := run (budget r0) env r0 in
     pending final = false /\ resolutions final = 1%nat /\
     exists evs, exec r0 evs = Some final).
Proof.
  cbn zeta.
  destruct (async_perform_establishes _ (unsubmitted_configure calls))
    as (Hinv0 & Hb0 & Hr0 & _).
  split_and!.
  - intros evs r Hex.
    destruct (exec_invariant evs _ _ Hinv0 Hex) as (Hinv & Hb & _).
    split_and!.
    + now apply request_inv_resolutions.
    + exact Hb.
    + apply request_inv_progress.
    + intros Hp ev. now apply deliver_terminal.
  - now rewrite Hb0, Hr0.
  - intros env.
    destruct (run_terminates env _ _ Hinv0 (le_n _)) as (Hp & evs & Hex).
    destruct (exec_invariant evs _ _ Hinv0 Hex) as (Hinv & _).
    split_and!; [exact Hp | | now exists evs].
    rewrite (request_inv_resolutions _ Hinv), Hp. reflexivity.
Qed.

Lemma promise_resolved_exactly_once_witness :
  let r0 := async_perform (configure [call_timeout 100; call_retry 3 true]) in
  let evs := [TransferDone 7 0 5; TimerFired 0; HeaderData [] 1 0;
              TransferDone 0 503 9; TimerFired 0; TransferDone 0 200 1] in
  exists r, exec r0 evs = Some r /\ pending r = false /\
            resolutions r = 1%nat.
Proof.
  cbn zeta.
  destruct (promise_resolved_exactly_once [call_timeout 100; call_retry 3 true])
    as (H & _).
  eexists. split; [vm_compute; reflexivity|].
  split; [vm_compute; reflexivity|].
  match goal with
  | |- resolutions ?r = _ =>
      assert (E : exec (async_perform
                          (configure [call_timeout 100; call_retry 3 true]))
                       [TransferDone 7 0 5; TimerFired 0; HeaderData [] 1 0;
                        TransferDone 0 503 9; TimerFired 0;
                        TransferDone 0 200 1] = Some r)
        by (vm_compute; reflexivity)
  end.
  destruct (H _ _ E) as (Hres & _). exact Hres.
Defined.

Lemma timer_history evs : forall r0 r,
  request_inv r0 -> timer_pending r0 = false ->
  exec r0 evs = Some r -> timer_pending r = true ->
  exists err code rnd,
    last evs = Some (TransferDone err code rnd) /\
    retry_worthy (on_fails (retry_ r)) err code.
Proof.
  destruct evs as [|ev evs _] using rev_ind; intros r0 r Hinv0 Ht0 Hex Ht.
  - cbn in Hex. injection Hex as <-. congruence.
  - apply exec_snoc_inv in Hex as (r1 & Hex1 & Hd).
    destruct (exec_invariant evs _ _ Hinv0 Hex1) as (Hinv1 & _).
    rewrite last_snoc.
    assert (Hfl : in_flight r1 = true -> timer_pending r1 = false).
    { unfold request_inv, in_flight in *. destruct Hinv1 as (_ & _ & H).
      destruct (easy_handler (easy_ r1)); [|discriminate].
      destruct (timer_pending r1); tauto. }
    destruct (deliver_effect _ _ _ Hd)
      as [ev r' Hev Hf He Hr Hp
         |err code rnd h r' Hh Hfin Hh' Ha Hr Hres
         |err code rnd r' Hh Hgo Hh' Ha Hr Hp
         |r' Ht1 Hh' Ha Hr Hp
         |err r' Herr Ht1 He Hr Hres].
    + exfalso. unfold timer_pending in Ht. rewrite Hr in Ht.
      specialize (Hfl Hf). unfold timer_pending in Hfl. congruence.
    + exfalso. unfold timer_pending in Ht. rewrite Hr in Ht.
      assert (Hf : in_flight r1 = true) by (unfold in_flight; now rewrite Hh).
      specialize (Hfl Hf). unfold timer_pending in Hfl. congruence.
    + exists err, code, rnd. split; [reflexivity|].
      rewrite Hr. cbn. now apply backoff_needs_room in Hgo as [_ Hw].
    + exfalso. unfold timer_pending in Ht. rewrite Hr in Ht. cbn in Ht.
      destruct (timer (retry_ r1)); discriminate.
    + exfalso. unfold timer_pending in Ht. rewrite Hr in Ht. cbn in Ht.
      destruct (timer (retry_ r1)); discriminate.
Qed.

Lemma to_short_le n : 1 <= n -> Z.max 1 (to_short n) <= n.
Proof.
  intros H. destruct (Z_le_gt_dec n 32767).
  - rewrite to_short_small by lia. lia.
  - pose proof (to_short_range n). lia.
Qed.

(** C3: for a request configured with [retry(n, f)], [n >= 1], in every
    reachable state the attempts used, [retry_.current], lie in [1 .. n] —
    the attempts configured — and never decrease; the number of attempts
    submitted lies in [1 .. n]; and an attempt beyond the first is submitted
    only by a successful timer callback that follows an attempt which ended
    in a transport error while [f] is on, or in a status of 500 and more.
    The count is stored in a [short]: the stored [retry_.retries] is [n]
    narrowed to 16 bits, which is [n] itself up to 32767, and then
    [current <= retries] holds of the stored fields as well. *)
Theorem attempts_bounded
    (calls : list BuilderCall) (n : Z) (f : bool)
    (evs : list Event) (r : RequestImpl) :
  1 <= n ->
  exec (async_perform (Request_retry n f (configure calls))) evs = Some r ->
  retries (retry_ r) = to_short n /\
  (n <= SHRT_MAX ->
     retries (retry_ r) = n /\ current (retry_ r) <= retries (retry_ r)) /\
  1 <= current (retry_ r) <= n /\
  1 <= Z.of_nat (attempts r) <= n /\
  (forall ev r', deliver r ev = Some r' ->
     current (retry_ r) <= current (retry_ r') /\
     (attempts r' <> attempts r ->
        attempts r' = S (attempts r) /\ ev = TimerFired 0 /\
        exists err code rnd,
          last evs = Some (TransferDone err code rnd) /\
          retry_worthy f err code)).
Proof.
  intros Hn Hex.
  assert (Hu : unsubmitted (Request_retry n f (configure calls))).
  { apply (unsubmitted_apply_call _ (call_retry n f)), unsubmitted_configure. }
  destruct (async_perform_establishes _ Hu) as (Hinv0 & _ & Hr0 & _ & Hp0).
  assert (Ht0 : timer_pending
                  (async_perform (Request_retry n f (configure calls)))
                = false).
  { unfold timer_pending. rewrite Hr0. destruct Hu as (_ & _ & _ & -> & _).
    reflexivity. }
  destruct (exec_invariant evs _ _ Hinv0 Hex) as (Hinv & _ & HR & Hf & Hc & Ha).
  rewrite Hr0 in HR, Hf, Hc.
  assert (HR' : retries (retry_ r) = to_short n).
  { rewrite HR. unfold Request_retry, retry. cbn.
    destruct (Z.leb_spec n 0); [lia | reflexivity]. }
  assert (Hf' : on_fails (retry_ r) = f) by (now rewrite Hf).
  pose proof (to_short_le n Hn) as Hle.
  assert (Hcur : 1 <= current (retry_ r) <= Z.max 1 (retries (retry_ r))
                 /\ 1 <= Z.of_nat (attempts r) <= current (retry_ r)).
  { unfold request_inv in Hinv. cbn zeta in Hinv.
    destruct Hinv as (_ & H1 & H).
    destruct (easy_handler (easy_ r)); destruct (timer_pending r); lia. }
  rewrite HR' in Hcur.
  split_and!; try lia.
  - intros Hs. unfold SHRT_MAX in Hs.
    rewrite HR', to_short_small in * by lia. lia.
  - intros ev r' Hd.
    destruct (request_inv_step r ev r' Hinv (deliver_effect _ _ _ Hd))
      as (_ & _ & _ & _ & Hc' & _).
    split; [exact Hc'|]. intros Hne.
    destruct (deliver_effect _ _ _ Hd)
      as [ev r' Hev Hfl He Hr Hp
         |err code rnd h r' Hh Hfin Hh' Ha' Hr Hres
         |err code rnd r' Hh Hgo Hh' Ha' Hr Hp
         |r' Ht1 Hh' Ha' Hr Hp
         |err r' Herr Ht1 He Hr Hres];
      try (exfalso; apply Hne; unfold attempts; congruence).
    split; [exact Ha'|]. split; [reflexivity|].
    rewrite <- Hf'. exact (timer_history evs _ r Hinv0 Ht0 Hex Ht1).
Qed.

Lemma attempts_bounded_witness :
  let r0 := async_perform (Request_retry 3 true (configure [call_timeout 100])) in
  let evs := [TransferDone 7 0 5; TimerFired 0; TransferDone 0 503 9] in
  exists r, exec r0 evs = Some r /\
            current (retry_ r) = 3 /\ attempts r = 2%nat /\
            1 <= Z.of_nat (attempts r) <= 3.
Proof.
  cbn zeta. eexists. split; [vm_compute; reflexivity|].
  split; [vm_compute; reflexivity|]. split; [vm_compute; reflexivity|].
  match goal with
  | |- 1 <= Z.of_nat (attempts ?r) <= _ =>
      assert (E : exec (async_perform
                          (Request_retry 3 true (configure [call_timeout 100])))
                       [TransferDone 7 0 5; TimerFired 0; TransferDone 0 503 9]
                  = Some r)
        by (vm_compute; reflexivity)
  end.
  destruct (attempts_bounded [call_timeout 100] 3 true _ _ ltac:(lia) E)
    as (_ & _ & _ & H & _).
  exact H.
Defined.

(** The stored count is the narrowed one: after [retry(32768, true)] it is
    -32768, and the request makes its single attempt. *)
Lemma stored_retries_wrap :
  let r := async_perform (Request_retry 32768 true RequestImpl_new) in
  retries (retry_ r) = -32768 /\
  ~ (current (retry_ r) <= retries (retry_ r)).
Proof. cbn zeta. split; [reflexivity|]. vm_compute. intros H. now apply H. Qed.

(** C6 on a PUT of ["ab"] with [retry(2, false)]: the first attempt reads
    the body and ends with status 500, the timer fires, and the second
    attempt is in flight.  The cursor is still at the end of the body and
    the remaining size is 0, so the first read callback of the retry copies
    nothing and returns 0. *)
Lemma put_cursor_not_reset_on_retry :
  let body := list_ascii_of_string "ab" in
  let r0 := async_perform
              (Request_retry 2 false (Request_put body RequestImpl_new)) in
  exists r,
    exec r0 [ReadData 1 16; TransferDone 0 500 0; TimerFired 0] = Some r /\
    attempts r = 2%nat /\ in_flight r = true /\
    put_method_cursor r = Some 2 /\
    put_method_rest_data_size r = 0 /\
    (PutMethodReadCallback 1 16 r).1.2 = [] /\
    (PutMethodReadCallback 1 16 r).2 = 0.
Proof.
  cbn zeta. eexists. split; [vm_compute; reflexivity|].
  vm_compute. repeat split.
Qed.

(** ** Trimming a header line *)
Lemma rfind_not_space_props (ptr : list ascii) (size : nat) :
  (rfind_not_space ptr size <= size)%nat /\
  (forall i, (rfind_not_space ptr size <= i < size)%nat ->
             is_trailing (nth i ptr NUL) = true) /\
  (rfind_not_space ptr size <> O ->
   is_trailing (nth (rfind_not_space ptr size - 1) ptr NUL) = false).
Proof.
  induction size as [|p IH]; cbn [rfind_not_space].
  - split_and!; [lia | intros i Hi; lia | congruence].
  - destruct (is_trailing (nth p ptr NUL)) eqn:E.
    + destruct IH as (H1 & H2 & H3). split_and!; [lia | | exact H3].
      intros i Hi. destruct (Nat.eq_dec i p) as [->|Hne]; [exact E|].
      apply H2. lia.
    + split_and!; [lia | intros i Hi; lia |].
      intros _. replace (S p - 1)%nat with p by lia. exact E.
Qed.

Lemma rfind_not_space_fixed (ptr : list ascii) (size : nat) :
  (size = O \/ is_trailing (nth (size - 1) ptr NUL) = false) ->
  rfind_not_space ptr size = size.
Proof.
  intros [->|H]; [reflexivity|]. destruct size as [|p]; [reflexivity|].
  cbn [rfind_not_space]. replace (S p - 1)%nat with p in H by lia.
  now rewrite H.
Qed.

(** X1: [rfind_not_space] returns the length [e] of the line without its
    trailing run of spaces, CRs and LFs: [e <= size], every character from
    [e] to [size] is one of the three, the character before [e] is not; [e]
    is the only offset with these properties, and trimming again changes
    nothing. *)
Theorem rfind_not_space_trims (ptr : list ascii) (size : nat) :
  let e := rfind_not_space ptr size in
  (e <= size)%nat /\
  (forall i, (e <= i < size)%nat -> is_trailing (nth i ptr NUL) = true) /\
  (e <> O -> is_trailing (nth (e - 1) ptr NUL) = false) /\
  rfind_not_space ptr e = e /\
  (forall e', (e' <= size)%nat ->
     (forall i, (e' <= i < size)%nat -> is_trailing (nth i ptr NUL) = true) ->
     (e' <> O -> is_trailing (nth (e' - 1) ptr NUL) = false) ->
     e' = e).
Proof.
  cbn zeta. destruct (rfind_not_space_props ptr size) as (H1 & H2 & H3).
  split_and!; try assumption.
  - apply rfind_not_space_fixed.
    destruct (Nat.eq_dec (rfind_not_space ptr size) O); [now left | right; auto].
  - intros e' L1 L2 L3.
    destruct (Nat.lt_trichotomy e' (rfind_not_space ptr size)) as [Hlt|[->|Hgt]];
      [exfalso | reflexivity | exfalso].
    + assert (Ht := L2 (rfind_not_space ptr size - 1)%nat ltac:(lia)).
      rewrite H3 in Ht by lia. discriminate.
    + assert (Ht := H2 (e' - 1)%nat ltac:(lia)).
      rewrite L3 in Ht by lia. discriminate.
Qed.

(** ** The header parser on any buffer *)
Lemma strchr_Some (s : list ascii) (c : ascii) (i : nat) :
  strchr s c = Some i ->
  (i < length s)%nat /\ s !! i = Some c /\ (c ∉ take i s) /\
  (c <> NUL -> NUL ∉ take i s).
Proof.
  revert i. induction s as [|x s IH]; intros i H; [discriminate|].
  cbn [strchr] in H.
  destruct (Ascii.eqb_spec x c) as [->|Hxc].
  - injection H as <-. cbn. split_and!; [lia | reflexivity | | intros _];
      apply not_elem_of_nil.
  - destruct (Ascii.eqb_spec x NUL) as [->|Hx0]; [discriminate|].
    destruct (strchr s c) as [j|] eqn:E; [|discriminate].
    injection H as <-. destruct (IH j eq_refl) as (H1 & H2 & H3 & H4).
    cbn. split_and!; [lia | exact H2 | | intros Hc];
      apply not_elem_of_cons; split; auto.
Qed.

Lemma strchr_terminated (ptr : list ascii) (e : nat) :
  strchr (<[e := NUL]> ptr) COLON = strchr (take e ptr) COLON.
Proof.
  revert e. induction ptr as [|x l IH]; intros e.
  - now destruct e.
  - destruct e as [|e]; cbn; [reflexivity|].
    destruct (Ascii.eqb x COLON); [reflexivity|].
    destruct (Ascii.eqb x NUL); [reflexivity|]. now rewrite IH.
Qed.

(** X2: on any buffer that holds [size] characters, [parse_header] acts on
    the trimmed line alone.  If no colon occurs in it before the first NUL
    (an empty line included) the header map is unchanged; otherwise exactly
    one entry is stored: the key is the text before the first colon, which
    holds no colon and no NUL, the value is all the rest, and key, colon and
    value make up the trimmed line. *)
Theorem parse_header_map_any_buffer
    (ptr : list ascii) (size : nat) (h : gmap string string) :
  (size <= length ptr)%nat ->
  let line := take (rfind_not_space ptr size) ptr in
  match strchr line COLON with
  | Some i =>
      parse_header_map ptr size h
      = <[string_of_list_ascii (take i line)
          := string_of_list_ascii (drop (S i) line)]> h /\
      (COLON ∉ take i line) /\ (NUL ∉ take i line) /\
      take i line ++ COLON :: drop (S i) line = line /\
      ends_visibly line
  | None => parse_header_map ptr size h = h
  end.
Proof.
  intros Hsize. cbn zeta.
  destruct (rfind_not_space_props ptr size) as (He & _ & Hvis).
  set (e := rfind_not_space ptr size) in *.
  unfold parse_header_map. fold e.
  rewrite strchr_terminated.
  destruct (strchr (take e ptr) COLON) as [i|] eqn:Es.
  - destruct (strchr_Some _ _ _ Es) as (Hi & Hat & Hc & Hn).
    rewrite length_take in Hi.
    destruct (Nat.eqb_spec e 0) as [E0|_]; [lia|].
    split_and!.
    + f_equal.
      * f_equal. rewrite take_take, Nat.min_l by lia.
        apply take_insert_ge. lia.
      * f_equal. rewrite take_drop_commute.
        replace (i + 1 + (e - i - 1))%nat with e by lia.
        rewrite take_insert_ge by lia.
        now replace (i + 1)%nat with (S i) by lia.
    + exact Hc.
    + apply Hn. discriminate.
    + now apply take_drop_middle.
    + intros c Hlast. rewrite last_lookup, length_take in Hlast.
      rewrite Nat.min_l in Hlast by lia.
      rewrite lookup_take_lt in Hlast by lia.
      replace (Nat.pred e) with (e - 1)%nat in Hlast by lia.
      rewrite <- (nth_lookup_Some _ _ NUL _ Hlast). apply Hvis. lia.
  - destruct (Nat.eqb e 0); reflexivity.
Qed.

Lemma parse_header_map_any_buffer_witness :
  let ptr := list_ascii_of_string "a:b: c  " in
  (8 <= length ptr)%nat /\
  parse_header_map ptr 8 ∅ = {[ "a"%string := "b: c"%string ]}.
Proof.
  cbn zeta. split; [cbn; lia|].
  pose proof (parse_header_map_any_buffer
                (list_ascii_of_string "a:b: c  ") 8 ∅ ltac:(cbn; lia)) as H.
  cbn zeta in H.
  change (strchr (take (rfind_not_space (list_ascii_of_string "a:b: c  ") 8)
                       (list_ascii_of_string "a:b: c  ")) COLON)
    with (Some 1%nat) in H.
  destruct H as (H & _). exact H.
Defined.

(** ** Repeated and distinct header names *)
Lemma string_of_list_ascii_inj (a b : list ascii) :
  string_of_list_ascii a = string_of_list_ascii b -> a = b.
Proof.
  intros H. apply (f_equal list_ascii_of_string) in H.
  now rewrite !list_ascii_of_string_of_list_ascii in H.
Qed.

(** X3: two header lines parsed one after the other.  With the same name the
    second value replaces the first (the map is as if only the second line
    had been parsed); with distinct names both entries are present and the
    order of the lines does not matter; no other key changes. *)
Theorem parse_header_map_last_wins
    (K K' W W' ws ws' : list ascii) (h : gmap string string) :
  (COLON ∉ K) -> (NUL ∉ K) -> (COLON ∉ K') -> (NUL ∉ K') ->
  ends_visibly W -> ends_visibly W' -> all_trailing ws -> all_trailing ws' ->
  let l := K ++ COLON :: W ++ ws in
  let l' := K' ++ COLON :: W' ++ ws' in
  let h2 := parse_header_map l' (length l') (parse_header_map l (length l) h) in
  h2 !! string_of_list_ascii K' = Some (string_of_list_ascii W') /\
  (K = K' ->
     h2 = parse_header_map l' (length l') h) /\
  (K <> K' ->
     h2 !! string_of_list_ascii K = Some (string_of_list_ascii W) /\
     h2 = parse_header_map l (length l) (parse_header_map l' (length l') h)) /\
  (forall k, k <> string_of_list_ascii K -> k <> string_of_list_ascii K' ->
     h2 !! k = h !! k).
Proof.
  intros Hc Hn Hc' Hn' HW HW' Hws Hws'. cbn zeta.
  rewrite !(parse_header_map_entry K W ws) by assumption.
  rewrite !(parse_header_map_entry K' W' ws') by assumption.
  split_and!.
  - apply lookup_insert_eq.
  - intros <-. apply insert_insert_eq.
  - intros Hne.
    assert (Hs : string_of_list_ascii K <> string_of_list_ascii K').
    { intros E. apply Hne. now apply string_of_list_ascii_inj. }
    split.
    + rewrite lookup_insert_ne by congruence. apply lookup_insert_eq.
    + apply insert_insert_ne. congruence.
  - intros k H1 H2. rewrite !lookup_insert_ne by congruence. reflexivity.
Qed.

Lemma parse_header_map_last_wins_witness :
  let l := list_ascii_of_string "Set-Cookie: a=1" ++ [CR; LF] in
  let l' := list_ascii_of_string "Set-Cookie: b=2" ++ [CR; LF] in
  parse_header_map l' (length l') (parse_header_map l (length l) ∅)
    !! "Set-Cookie"%string = Some " b=2"%string.
Proof.
  cbn zeta.
  refine (proj1 (parse_header_map_last_wins
            (list_ascii_of_string "Set-Cookie") (list_ascii_of_string "Set-Cookie")
            (list_ascii_of_string " a=1") (list_ascii_of_string " b=2")
            [CR; LF] [CR; LF] ∅ _ _ _ _ _ _ _ _)).
  1-4: (vm_compute; intros C;
        repeat (inversion C as [|? ? ? C']; clear C; rename C' into C; subst)).
  1-2: (intros c Hl; injection Hl as <-; reflexivity).
  1-2: repeat constructor.
Defined.

(** ** The PUT feeder with any buffers *)
Lemma feed_returns_bounded caps : forall r,
  put_consistent r ->
  Forall2 (fun c o => 0 <= o.2 <= capacity c /\ Z.of_nat (length o.1) = o.2)
          caps (feed caps r).2.
Proof.
  induction caps as [|[size nmemb] caps IH]; intros r Hr; [constructor|].
  cbn [feed].
  pose proof (PutMethodReadCallback_step size nmemb r Hr) as Hstep.
  destruct (PutMethodReadCallback size nmemb r) as [[r1 o] n].
  destruct Hstep as (Hn & _ & Hlen & _ & _ & _ & Hr1).
  specialize (IH r1 Hr1). destruct (feed caps r1) as [r2 outs].
  pose proof (capacity_nonneg (size, nmemb)).
  destruct Hr as (_ & _ & Hrem).
  constructor; [cbn; lia | exact IH].
Qed.

(** X4: whatever the buffers offered (too few included), the bytes the read
    callback copies in one attempt that starts from [SetPutMethodData] are a
    prefix of the payload, of length [min(payload size, total capacity)]:
    every call returns between 0 and its capacity and copies that many
    bytes, the payload itself is left untouched, and what remains is the
    payload size minus the capacity, or 0. *)
Theorem feed_copies_prefix
    (data : list ascii) (r : RequestImpl) (caps : list (Z * Z)) :
  let r' := (feed caps (SetPutMethodData data r)).1 in
  let outs := (feed caps (SetPutMethodData data r)).2 in
  concat outs.*1 = take (Z.to_nat (total_capacity caps)) data /\
  Forall2 (fun c o => 0 <= o.2 <= capacity c /\ Z.of_nat (length o.1) = o.2)
          caps outs /\
  foldr Z.add 0 outs.*2
    = Z.min (Z.of_nat (length data)) (total_capacity caps) /\
  put_method_data r' = data /\
  put_remaining r'
    = Z.max 0 (Z.of_nat (length data) - total_capacity caps).
Proof.
  cbn zeta.
  pose proof (feed_returns_bounded caps _ (put_consistent_fresh data r)) as Hb.
  pose proof (feed_from caps _ (put_consistent_fresh data r)) as H.
  destruct (feed caps (SetPutMethodData data r)) as [r' outs].
  cbn zeta in H. cbn [fst snd] in *.
  change (put_remaining (SetPutMethodData data r))
    with (Z.of_nat (length data)) in H.
  change (put_sent (SetPutMethodData data r)) with 0 in H.
  change (put_method_data (SetPutMethodData data r)) with data in H.
  destruct H as (Hcat & Hlen & Hd & _ & Hrem & _ & _).
  assert (Htc : 0 <= total_capacity caps).
  { unfold total_capacity. clear. induction caps as [|c caps IH]; cbn; [lia|].
    pose proof (capacity_nonneg c). lia. }
  split_and!.
  - rewrite Hcat. change (Z.to_nat 0) with O. rewrite drop_0.
    destruct (Z.le_ge_cases (Z.of_nat (length data)) (total_capacity caps)).
    + rewrite Z.min_l by lia. rewrite !take_ge by lia. reflexivity.
    + rewrite Z.min_r by lia. reflexivity.
  - exact Hb.
  - rewrite <- Hlen. clear -Hb. induction Hb as [|c o caps outs [_ Ho] _ IH].
    + reflexivity.
    + cbn [fmap list_fmap foldr concat]. rewrite length_app.
      cbn [fmap] in IH. rewrite IH. destruct o as [out n]. cbn in *. lia.
  - exact Hd.
  - rewrite Hrem. lia.
Qed.

(** ** The backoff budget in closed form *)
Lemma backoff_budget_small n : n <= 1 -> backoff_budget n = 0.
Proof. intros H. unfold backoff_budget. now rewrite seqZ_nil by lia. Qed.

Lemma backoff_budget_succ n :
  1 <= n ->
  backoff_budget (n + 1)
  = backoff_budget n + kEBBaseTime * (2 ^ Z.min (n - 1) 5 + 1).
Proof.
  intros H. unfold backoff_budget.
  replace (n + 1 - 1) with ((n - 1) + 1) by lia.
  rewrite seqZ_app by lia. rewrite fmap_app, foldr_app.
  replace (1 + (n - 1)) with n by lia.
  rewrite (seqZ_cons n 1) by lia. rewrite (seqZ_nil _ (Z.pred 1)) by lia.
  cbn [fmap list_fmap foldr]. rewrite Z.add_0_r.
  generalize (kEBBaseTime * (2 ^ Z.min (n - 1) 5 + 1)). intros t.
  generalize ((fun i => kEBBaseTime * (2 ^ Z.min (i - 1) 5 + 1)) <$> seqZ 1 (n - 1)).
  intros l. induction l as [|x l IH]; cbn; lia.
Qed.

Lemma backoff_budget_linear n : 6 <= n -> backoff_budget n = 825 * n - 4050.
Proof.
  intros H. replace n with (6 + Z.of_nat (Z.to_nat (n - 6))) by lia.
  induction (Z.to_nat (n - 6)) as [|k IH]; [reflexivity|].
  rewrite Nat2Z.inj_succ.
  replace (6 + Z.succ (Z.of_nat k)) with ((6 + Z.of_nat k) + 1) by lia.
  rewrite backoff_budget_succ, IH by lia.
  rewrite Z.min_r by lia. unfold kEBBaseTime. lia.
Qed.

Lemma backoff_budget_mono n m : n <= m -> backoff_budget n <= backoff_budget m.
Proof.
  intros H. replace m with (n + Z.of_nat (Z.to_nat (m - n))) by lia.
  induction (Z.to_nat (m - n)) as [|k IH]; [rewrite Z.add_0_r; lia|].
  rewrite Nat2Z.inj_succ.
  replace (n + Z.succ (Z.of_nat k)) with ((n + Z.of_nat k) + 1) by lia.
  destruct (Z_le_gt_dec 1 (n + Z.of_nat k)) as [H1|H1].
  - rewrite backoff_budget_succ by lia.
    assert (0 < 2 ^ Z.min (n + Z.of_nat k - 1) 5) by (apply Z.pow_pos_nonneg; lia).
    unfold kEBBaseTime. lia.
  - rewrite (backoff_budget_small (n + Z.of_nat k + 1)) by lia.
    rewrite (backoff_budget_small (n + Z.of_nat k)) in IH by lia.
    exact IH.
Qed.

(** X5: [max_retry_time] is 0 up to one attempt, 50, 125, 250 and 475 ms
    for 2 to 5 attempts, and [825 * number - 4050] ms from 6 attempts on (the
    window stops growing at [2^5]); it never decreases with the number of
    attempts. *)
Theorem max_retry_time_closed_form (number : Z) :
  (number <= 1 -> max_retry_time number = 0) /\
  (number = 2 -> max_retry_time number = 50) /\
  (number = 3 -> max_retry_time number = 125) /\
  (number = 4 -> max_retry_time number = 250) /\
  (number = 5 -> max_retry_time number = 475) /\
  (6 <= number -> max_retry_time number = 825 * number - 4050) /\
  (forall m, number <= m -> max_retry_time number <= max_retry_time m).
Proof.
  rewrite max_retry_time_sum. split_and!.
  - apply backoff_budget_small.
  - now intros ->.
  - now intros ->.
  - now intros ->.
  - now intros ->.
  - apply backoff_budget_linear.
  - intros m H. rewrite max_retry_time_sum. now apply backoff_budget_mono.
Qed.

(** ** Backoff delays against the budget *)
Lemma rem_below (a w : Z) : 0 < w -> Z.rem a w <= w - 1.
Proof.
  intros Hw. destruct (Z_le_gt_dec 0 a) as [Ha|Ha].
  - pose proof (Z.rem_bound_pos a w Ha Hw). lia.
  - replace a with (- (- a)) by lia. rewrite Z.rem_opp_l by lia.
    pose proof (Z.rem_bound_pos (- a) w ltac:(lia) Hw). lia.
Qed.

Lemma retry_timeout_ms_bounds (c rnd : Z) :
  1 <= c ->
  retry_timeout_ms c rnd <= kEBBaseTime * 2 ^ Z.min (c - 1) 5 /\
  retry_timeout_ms c rnd <= 800 /\
  (0 <= rnd -> 25 <= retry_timeout_ms c rnd).
Proof.
  intros Hc. unfold retry_timeout_ms, kEBBaseTime, kMaxRetryInTimeout.
  rewrite Z.shiftl_1_l.
  pose proof (backoff_window_pos c Hc) as Hw.
  pose proof (rem_below rnd _ Hw) as Hr.
  assert (H32 : 2 ^ Z.min (c - 1) 5 <= 2 ^ 5)
    by (apply Z.pow_le_mono_r; lia).
  change (2 ^ 5) with 32 in H32.
  split_and!; try lia.
  intros H0. pose proof (Z.rem_bound_pos rnd _ H0 Hw). lia.
Qed.

Lemma armed_delay_step r ev r' :
  request_inv r -> deliver r ev = Some r' ->
  armed_delay r r' + backoff_budget (current (retry_ r))
    <= backoff_budget (current (retry_ r')) /\
  armed_delay r r' <= 800.
Proof.
  intros Hinv Hd.
  destruct (request_inv_step r ev r' Hinv (deliver_effect _ _ _ Hd))
    as (_ & _ & _ & _ & Hmono & _).
  pose proof (backoff_budget_mono _ _ Hmono) as Hb.
  assert (Hzero : timer_pending r' && negb (timer_pending r) = false ->
            armed_delay r r' + backoff_budget (current (retry_ r))
              <= backoff_budget (current (retry_ r')) /\
            armed_delay r r' <= 800).
  { intros E. unfold armed_delay. rewrite E. lia. }
  destruct (deliver_effect _ _ _ Hd)
    as [ev r' Hev Hf He Hr Hp
       |err code rnd h r' Hh Hfin Hh' Ha Hr Hres
       |err code rnd r' Hh Hgo Hh' Ha Hr Hp
       |r' Ht1 Hh' Ha Hr Hp
       |err r' Herr Ht1 He Hr Hres].
  - apply Hzero. unfold timer_pending. rewrite Hr.
    now destruct (match timer (retry_ r) with Some t => _ | None => _ end).
  - apply Hzero. unfold timer_pending. rewrite Hr.
    now destruct (match timer (retry_ r) with Some t => _ | None => _ end).
  - clear Hzero Hb. apply backoff_needs_room in Hgo as [Hroom _].
    unfold request_inv in Hinv. cbn zeta in Hinv. rewrite Hh in Hinv.
    destruct Hinv as (HR & H1 & Hm).
    assert (Htp : timer_pending r = false)
      by (destruct (timer_pending r); tauto).
    rewrite Htp in Hm.
    unfold armed_delay, timer_pending at 1. rewrite Htp, Hr. cbn.
    rewrite to_short_small by lia.
    rewrite backoff_budget_succ by lia.
    pose proof (retry_timeout_ms_bounds (current (retry_ r)) rnd ltac:(lia)).
    unfold kEBBaseTime in *.
    split; [lia | destruct (timer_pending r' && true); lia].
  - apply Hzero. unfold timer_pending at 1. rewrite Hr. cbn.
    now destruct (timer (retry_ r)).
  - apply Hzero. unfold timer_pending at 1. rewrite Hr. cbn.
    now destruct (timer (retry_ r)).
Qed.

Lemma backoff_total_bound evs : forall r r',
  request_inv r -> exec r evs = Some r' ->
  backoff_total r evs + backoff_budget (current (retry_ r))
    <= backoff_budget (current (retry_ r')).
Proof.
  induction evs as [|ev evs IH]; intros r r' Hinv Hex; cbn in *.
  - injection Hex as <-. lia.
  - destruct (deliver r ev) as [r1|] eqn:Ed; [|discriminate].
    destruct (request_inv_step r ev r1 Hinv (deliver_effect _ _ _ Ed))
      as (Hinv1 & _).
    destruct (armed_delay_step r ev r1 Hinv Ed) as (H1 & _).
    specialize (IH r1 r' Hinv1 Hex). lia.
Qed.

(** X6: along every execution of a submitted request the backoff delays
    armed so far sum up to at most [max_retry_time] of the attempts used, hence
    of the stored attempt count — the budget [complete_timeout] adds to the
    deadline — and no single delay exceeds 800 ms. *)
Theorem backoff_within_budget
    (calls : list BuilderCall) (evs : list Event) (r : RequestImpl) :
  let r0 := async_perform (configure calls) in
  exec r0 evs = Some r ->
  backoff_total r0 evs <= max_retry_time (retries (retry_ r0)) /\
  backoff_total r0 evs <= max_retry_time (current (retry_ r)) /\
  (forall ev r', deliver r ev = Some r' -> armed_delay r r' <= 800).
Proof.
  cbn zeta. intros Hex.
  pose proof (unsubmitted_configure calls) as Hu.
  destruct (async_perform_establishes _ Hu) as (Hinv0 & _ & Hr0 & _).
  destruct (exec_invariant evs _ _ Hinv0 Hex) as (Hinv & _ & HR & _).
  pose proof (backoff_total_bound evs _ _ Hinv0 Hex) as Hb.
  rewrite Hr0 in Hb. destruct Hu as (_ & _ & _ & _ & Hc1 & _).
  rewrite Hc1, (backoff_budget_small 1) in Hb by lia.
  rewrite !max_retry_time_sum.
  assert (Hcur : 1 <= current (retry_ r) <= Z.max 1 (retries (retry_ r))).
  { unfold request_inv in Hinv. cbn zeta in Hinv.
    destruct Hinv as (_ & H1 & H).
    destruct (easy_handler (easy_ r)); destruct (timer_pending r); lia. }
  split_and!.
  - rewrite <- HR.
    destruct (Z_le_gt_dec (retries (retry_ r)) 1) as [Hle|Hgt].
    + assert (Hone : current (retry_ r) = 1) by lia.
      rewrite Hone, (backoff_budget_small 1) in Hb by lia.
      rewrite (backoff_budget_small (retries (retry_ r))) by lia. lia.
    + pose proof (backoff_budget_mono (current (retry_ r))
                    (retries (retry_ r)) ltac:(lia)). lia.
  - lia.
  - intros ev r' Hd. now apply (armed_delay_step r ev r' Hinv Hd).
Qed.

Lemma backoff_within_budget_witness :
  let r0 := async_perform (configure [call_retry 3 true]) in
  let evs := [TransferDone 7 0 5; TimerFired 0; TransferDone 0 503 9;
              TimerFired 0] in
  exists r, exec r0 evs = Some r /\
    backoff_total r0 evs = 75 /\
    backoff_total r0 evs <= max_retry_time 3.
Proof.
  cbn zeta. eexists. split; [vm_compute; reflexivity|].
  split; [vm_compute; reflexivity|].
  match goal with
  | |- backoff_total ?r0 ?evs <= _ =>
      assert (E : exists r, exec r0 evs = Some r)
        by (eexists; vm_compute; reflexivity)
  end.
  destruct E as [r E].
  exact (proj1 (backoff_within_budget [call_retry 3 true] _ r E)).
Defined.

(** ** Span, response and the value of the resolution *)
Lemma on_completed_outcome err r :
  span_ (on_completed err r) = None /\
  (err <> 0 ->
     promise_ (on_completed err r) = promise_ r ++ [set_exception err] /\
     response_ (on_completed err r) = response_ r) /\
  (err = 0 ->
     promise_ (on_completed err r) = promise_ r ++ [set_value (response_ r)] /\
     response_ (on_completed err r) = None).
Proof.
  unfold on_completed.
  destruct (is_error err) eqn:E; cbn; [|destruct (IsOk _)]; cbn;
    (split; [reflexivity|]); split; intros H;
    try (apply is_error_true in E); try (apply is_error_false in E);
    try contradiction; try (now split).
Qed.

Lemma record_attempt_live err r :
  response_ (record_attempt err r) = response_ r /\
  span_ (record_attempt err r) = span_ r.
Proof. unfold record_attempt. destruct (is_error err); now split. Qed.

Lemma request_inv_exclusive r :
  request_inv r ->
  (in_flight r = true -> timer_pending r = false) /\
  (pending r = true -> resolutions r = 0%nat).
Proof.
  unfold request_inv, in_flight, pending, in_flight. intros (_ & _ & H).
  destruct (easy_handler (easy_ r)); destruct (timer_pending r); cbn;
    split; intros; try tauto; try discriminate.
Qed.

Lemma live_inv_step r ev r' :
  request_inv r -> live_inv r -> deliver r ev = Some r' -> live_inv r'.
Proof.
  intros Hinv (Hresp & Hspan & Hnone) Hd.
  destruct (request_inv_step r ev r' Hinv (deliver_effect _ _ _ Hd))
    as (Hinv' & _).
  destruct (request_inv_exclusive r Hinv) as (Hex & _).
  destruct ev as [err code rnd|err|ptr size nmemb|size nmemb];
    cbn [deliver] in Hd.
  - assert (Hfl : in_flight r = true).
    { unfold in_flight. destruct (easy_handler (easy_ r)); [reflexivity|discriminate]. }
    assert (Hpend : pending r = true) by (unfold pending; now rewrite Hfl).
    assert (Hterm : forall x,
              easy_handler (easy_ x) = None -> retry_ x = retry_ r ->
              live_inv (on_completed err x)).
    { intros x Hx Hrx.
      destruct (on_completed_outcome err x) as (Hs & _).
      unfold live_inv, pending, in_flight, timer_pending.
      rewrite easy_on_completed, retry_on_completed, Hx, Hrx.
      specialize (Hex Hfl). unfold timer_pending in Hex. rewrite Hex. cbn.
      split_and!; [discriminate | discriminate | intros _; exact Hs]. }
    destruct (easy_handler (easy_ r)) as [[|]|] eqn:Eh; [| |discriminate];
      injection Hd as <-.
    + apply (Hterm (complete_transfer code r)); reflexivity.
    + destruct (finish_condition_dec err (complete_transfer code r)) as [F|F].
      * rewrite (on_retry_finish _ _ _ F).
        destruct (record_attempt_frame err (complete_transfer code r))
          as (He & Hr & _).
        apply (Hterm (record_attempt err (complete_transfer code r)));
          [now rewrite He | now rewrite Hr].
      * rewrite (on_retry_backoff _ _ _ F).
        destruct (record_attempt_frame err (complete_transfer code r))
          as (He & _).
        destruct (record_attempt_live err (complete_transfer code r))
          as (_ & Hsp).
        unfold live_inv, pending, in_flight, timer_pending. cbn.
        rewrite He, Hsp. cbn.
        split_and!; [discriminate | intros _; now apply Hspan | discriminate].
  - destruct (timer_pending r) eqn:Et; [|discriminate]. injection Hd as <-.
    assert (Hpend : pending r = true)
      by (unfold pending; rewrite Et; apply orb_true_r).
    assert (Hnf : easy_handler (easy_ r) = None).
    { destruct (easy_handler (easy_ r)) eqn:Eh; [|reflexivity].
      assert (in_flight r = true) by (unfold in_flight; now rewrite Eh).
      specialize (Hex H). congruence. }
    unfold on_retry_timer. destruct (is_error err) eqn:Ee; cbn [negb].
    + destruct (on_completed_outcome err (disarm_timer r)) as (Hs & _).
      unfold live_inv, pending, in_flight, timer_pending.
      rewrite easy_on_completed, retry_on_completed. cbn. rewrite Hnf.
      destruct (timer (retry_ r)); cbn;
        (split_and!; [discriminate | discriminate | intros _; exact Hs]).
    + unfold live_inv, pending, in_flight. cbn.
      split_and!; [intros _; eauto | intros _; now apply Hspan | discriminate].
  - destruct (in_flight r) eqn:Ef; [|discriminate].
    destruct (header_function (easy_ r)); [|discriminate].
    cbn in Hd. injection Hd as <-.
    assert (Hsame : pending (parse_header ptr (Z.to_nat (to_size_t (size * nmemb))) r)
                    = pending r /\
                    span_ (parse_header ptr (Z.to_nat (to_size_t (size * nmemb))) r)
                    = span_ r /\
                    in_flight (parse_header ptr (Z.to_nat (to_size_t (size * nmemb))) r)
                    = in_flight r).
    { unfold parse_header. destruct (response_ r); repeat split. }
    unfold live_inv. destruct Hsame as (-> & -> & ->).
    split_and!; [|exact Hspan | exact Hnone].
    intros _. unfold parse_header.
    destruct (Hresp eq_refl) as [x ->]. cbn. eauto.
  - destruct (in_flight r) eqn:Ef; [|discriminate].
    destruct (read_function (easy_ r)); [|discriminate].
    injection Hd as <-.
    unfold live_inv, PutMethodReadCallback, pending, in_flight,
      timer_pending in *.
    destruct (put_method_cursor r); cbn in *;
      (split_and!; [intros _; now apply Hresp | exact Hspan | exact Hnone]).
Qed.

Lemma live_inv_async_perform r :
  unsubmitted r -> live_inv (async_perform r).
Proof.
  intros _. unfold async_perform, live_inv, pending, in_flight. cbn.
  destruct (retries (retry_ r) <=? 1); cbn;
    (split_and!; [eauto | eauto | discriminate]).
Qed.

Lemma live_inv_exec evs : forall r r',
  request_inv r -> live_inv r -> exec r evs = Some r' -> live_inv r'.
Proof.
  induction evs as [|ev evs IH]; intros r r' Hinv Hl Hex; cbn in Hex.
  - now injection Hex as <-.
  - destruct (deliver r ev) as [r1|] eqn:Ed; [|discriminate].
    destruct (request_inv_step r ev r1 Hinv (deliver_effect _ _ _ Ed))
      as (Hinv1 & _).
    exact (IH r1 r' Hinv1 (live_inv_step r ev r1 Hinv Hl Ed) Hex).
Qed.

(** X8: in every reachable state of a submitted request the span exists
    exactly while a callback is still owed and is gone exactly when the
    promise has its resolution; while a transfer is in flight [response_]
    is not null, so the header callback always has a response to write
    to. *)
Theorem span_and_response_lifetime
    (calls : list BuilderCall) (evs : list Event) (r : RequestImpl) :
  exec (async_perform (configure calls)) evs = Some r ->
  (is_Some (span_ r) <-> pending r = true) /\
  (span_ r = None <-> resolutions r = 1%nat) /\
  (in_flight r = true -> is_Some (response_ r)).
Proof.
  intros Hex.
  pose proof (unsubmitted_configure calls) as Hu.
  destruct (async_perform_establishes _ Hu) as (Hinv0 & _).
  destruct (exec_invariant evs _ _ Hinv0 Hex) as (Hinv & _).
  destruct (live_inv_exec evs _ _ Hinv0 (live_inv_async_perform _ Hu) Hex)
    as (Hresp & Hspan & Hnone).
  pose proof (request_inv_resolutions r Hinv) as Hres.
  destruct (pending r) eqn:Ep.
  - destruct (Hspan eq_refl) as [s Hs]. rewrite Hs, Hres.
    split_and!; [split; eauto | split; discriminate | exact Hresp].
  - rewrite (Hnone eq_refl), Hres.
    split_and!; [split; [intros [? ?]|]; discriminate | split; reflexivity
                | exact Hresp].
Qed.

Lemma span_and_response_lifetime_witness :
  let r0 := async_perform (configure [call_retry 2 false]) in
  exists r, exec r0 [TransferDone 0 500 3] = Some r /\
            is_Some (span_ r) /\ pending r = true.
Proof.
  cbn zeta. eexists. split; [vm_compute; reflexivity|].
  match goal with
  | |- is_Some (span_ ?r) /\ _ =>
      assert (E : exec (async_perform (configure [call_retry 2 false]))
                       [TransferDone 0 500 3] = Some r)
        by (vm_compute; reflexivity)
  end.
  destruct (span_and_response_lifetime [call_retry 2 false] _ _ E)
    as (H & _).
  split; [apply H|]; vm_compute; reflexivity.
Defined.

(** ** Statistics *)
Lemma count_calls_app p a b :
  count_calls p (a ++ b) = (count_calls p a + count_calls p b)%nat.
Proof. induction a as [|c a IH]; cbn; [reflexivity | rewrite IH; lia]. Qed.

Lemma transfers_done_app a b :
  transfers_done (a ++ b) = (transfers_done a + transfers_done b)%nat.
Proof.
  induction a as [|[] a IH]; cbn; rewrite ?IH; reflexivity.
Qed.

Lemma stats_on_completed err r :
  count_calls is_finish (stats_ (on_completed err r))
    = S (count_calls is_finish (stats_ r)) /\
  count_calls is_start (stats_ (on_completed err r))
    = count_calls is_start (stats_ r).
Proof.
  unfold on_completed.
  destruct (is_error err); cbn; [|destruct (IsOk _)]; cbn;
    rewrite !count_calls_app; cbn; split; lia.
Qed.

Lemma stats_record_attempt err r :
  count_calls is_finish (stats_ (record_attempt err r))
    = S (count_calls is_finish (stats_ r)) /\
  count_calls is_start (stats_ (record_attempt err r))
    = count_calls is_start (stats_ r).
Proof.
  unfold record_attempt. destruct (is_error err); cbn;
    rewrite !count_calls_app; cbn; split; lia.
Qed.

Lemma stats_inv_step T r ev r' :
  request_inv r -> stats_inv T r -> deliver r ev = Some r' ->
  stats_inv (T + transfers_done [ev]) r'.
Proof.
  intros Hinv (Hs & Hf & Hc & Hr) Hd.
  destruct (request_inv_step r ev r' Hinv (deliver_effect _ _ _ Hd))
    as (Hinv' & _ & HR & _).
  destruct (request_inv_exclusive r Hinv) as (Hexcl & _).
  assert (Htimer : timer_pending r = true -> 1 < retries (retry_ r)).
  { unfold request_inv in Hinv. cbn zeta in Hinv.
    destruct Hinv as (_ & H1 & H). intros E. rewrite E in H.
    destruct (easy_handler (easy_ r)); [tauto | lia]. }
  unfold stats_inv. rewrite HR.
  destruct ev as [err code rnd|err|ptr size nmemb|size nmemb];
    cbn [deliver transfers_done] in *.
  - assert (Hfl : in_flight r = true).
    { unfold in_flight.
      destruct (easy_handler (easy_ r)); [reflexivity|discriminate]. }
    assert (Hpend : pending r = true) by (unfold pending; now rewrite Hfl).
    rewrite Hpend in Hf. specialize (Hexcl Hfl).
    destruct (easy_handler (easy_ r)) as [[|]|] eqn:Eh; [| |discriminate];
      injection Hd as <-.
    + destruct (stats_on_completed err (complete_transfer code r)) as (F1 & F2).
      rewrite F1, F2. unfold pending, in_flight, timer_pending.
      rewrite easy_on_completed, retry_on_completed. cbn.
      unfold timer_pending in Hexcl. rewrite Hexcl.
      specialize (Hc eq_refl).
      destruct (Z.leb_spec (retries (retry_ r)) 1); [|lia].
      split_and!; [exact Hs | lia | discriminate | discriminate].
    + specialize (Hr eq_refl).
      destruct (finish_condition_dec err (complete_transfer code r)) as [F|F].
      * rewrite (on_retry_finish _ _ _ F).
        destruct (stats_on_completed err
                    (record_attempt err (complete_transfer code r)))
          as (F1 & F2).
        destruct (stats_record_attempt err (complete_transfer code r))
          as (G1 & G2).
        destruct (record_attempt_frame err (complete_transfer code r))
          as (He & Hrr & _).
        rewrite F1, F2, G1, G2. unfold pending, in_flight, timer_pending.
        rewrite easy_on_completed, retry_on_completed, He, Hrr. cbn.
        unfold timer_pending in Hexcl. rewrite Hexcl.
        destruct (Z.leb_spec (retries (retry_ r)) 1); [lia|].
        split_and!; [exact Hs | lia | discriminate | discriminate].
      * rewrite (on_retry_backoff _ _ _ F).
        destruct (stats_record_attempt err (complete_transfer code r))
          as (G1 & G2).
        destruct (record_attempt_frame err (complete_transfer code r))
          as (He & _).
        cbn. rewrite G1, G2. unfold pending, in_flight, timer_pending. cbn.
        rewrite He. cbn.
        split_and!; [exact Hs | lia | discriminate | discriminate].
  - destruct (timer_pending r) eqn:Et; [|discriminate]. injection Hd as <-.
    specialize (Htimer eq_refl).
    assert (Hnf : easy_handler (easy_ r) = None).
    { destruct (easy_handler (easy_ r)) eqn:Eh; [|reflexivity].
      assert (in_flight r = true) by (unfold in_flight; now rewrite Eh).
      specialize (Hexcl H). congruence. }
    assert (Hpend : pending r = true)
      by (unfold pending; rewrite Et; apply orb_true_r).
    rewrite Hpend in Hf.
    unfold on_retry_timer. destruct (is_error err) eqn:Ee; cbn [negb].
    + destruct (stats_on_completed err (disarm_timer r)) as (F1 & F2).
      rewrite F1, F2. unfold pending, in_flight, timer_pending.
      rewrite easy_on_completed, retry_on_completed. cbn. rewrite Hnf.
      destruct (Z.leb_spec (retries (retry_ r)) 1); [lia|].
      destruct (timer (retry_ r)); cbn;
        (split_and!; [exact Hs | lia | discriminate | discriminate]).
    + unfold pending, in_flight. cbn.
      split_and!; [exact Hs | lia | discriminate | intros _; lia].
  - destruct (in_flight r) eqn:Ef; [|discriminate].
    destruct (header_function (easy_ r)); [|discriminate].
    cbn in Hd. injection Hd as <-.
    assert (Hpend : pending r = true) by (unfold pending; now rewrite Ef).
    rewrite Hpend in Hf.
    unfold parse_header. destruct (response_ r); cbn;
      unfold pending, in_flight in *; cbn;
      destruct (easy_handler (easy_ r)); try discriminate; cbn;
      (split_and!; [exact Hs | lia | exact Hc | exact Hr]).
  - destruct (in_flight r) eqn:Ef; [|discriminate].
    destruct (read_function (easy_ r)); [|discriminate].
    injection Hd as <-.
    assert (Hpend : pending r = true) by (unfold pending; now rewrite Ef).
    rewrite Hpend in Hf.
    unfold PutMethodReadCallback. destruct (put_method_cursor r); cbn;
      unfold pending, in_flight in *; cbn;
      destruct (easy_handler (easy_ r)); try discriminate; cbn;
      (split_and!; [exact Hs | lia | exact Hc | exact Hr]).
Qed.

Lemma stats_configure calls : stats_ (configure calls) = [].
Proof.
  unfold configure.
  assert (H0 : stats_ RequestImpl_new = []) by reflexivity.
  revert H0. generalize RequestImpl_new.
  induction calls as [|c calls IH]; intros r Hr; [exact Hr|].
  cbn. apply IH. now destruct c.
Qed.

Lemma stats_inv_async_perform r :
  unsubmitted r -> stats_ r = [] -> stats_inv 0 (async_perform r).
Proof.
  intros _ Hs. unfold async_perform, stats_inv, pending, in_flight.
  cbn [retry_ with_easy stats_add with_stats with_span].
  destruct (Z.leb_spec (retries (retry_ r)) 1); cbn; rewrite Hs; cbn;
    (split_and!; [reflexivity | reflexivity | intros; lia || discriminate
                 | intros; lia || discriminate]).
Qed.

Lemma stats_inv_exec evs : forall T r r',
  request_inv r -> stats_inv T r -> exec r evs = Some r' ->
  stats_inv (T + transfers_done evs) r'.
Proof.
  induction evs as [|ev evs IH]; intros T r r' Hinv Hs Hex; cbn [exec] in Hex.
  - injection Hex as <-. cbn. now rewrite Nat.add_0_r.
  - destruct (deliver r ev) as [r1|] eqn:Ed; [|discriminate].
    destruct (request_inv_step r ev r1 Hinv (deliver_effect _ _ _ Ed))
      as (Hinv1 & _).
    pose proof (IH _ r1 r' Hinv1 (stats_inv_step T r ev r1 Hinv Hs Ed) Hex) as H.
    change (ev :: evs) with ([ev] ++ evs). rewrite transfers_done_app.
    now rewrite Nat.add_assoc.
Qed.

(** X9: [Start] is recorded once per request.  While a callback is owed,
    the sink holds one [FinishOk]/[FinishEc] per completed transfer.  At the
    end it holds as many for a request submitted with at most one attempt
    stored, and one more than the completed transfers otherwise: [on_retry]
    records every attempt and the final [on_completed] records again. *)
Theorem statistics_accounting
    (calls : list BuilderCall) (evs : list Event) (r : RequestImpl) :
  exec (async_perform (configure calls)) evs = Some r ->
  count_calls is_start (stats_ r) = 1%nat /\
  (pending r = true ->
     count_calls is_finish (stats_ r) = transfers_done evs) /\
  (pending r = false -> retries (retry_ r) <= 1 ->
     count_calls is_finish (stats_ r) = transfers_done evs) /\
  (pending r = false -> 1 < retries (retry_ r) ->
     count_calls is_finish (stats_ r) = S (transfers_done evs)).
Proof.
  intros Hex.
  pose proof (unsubmitted_configure calls) as Hu.
  destruct (async_perform_establishes _ Hu) as (Hinv0 & _).
  destruct (stats_inv_exec evs 0 _ _ Hinv0
              (stats_inv_async_perform _ Hu (stats_configure calls)) Hex)
    as (Hs & Hf & _).
  cbn [Nat.add] in Hf.
  split_and!; [exact Hs | | |]; intros Hp; rewrite Hp in Hf;
    [lia | |]; intros HR;
    destruct (Z.leb_spec (retries (retry_ r)) 1); lia.
Qed.

Lemma statistics_accounting_witness :
  let r0 := async_perform (configure [call_retry 2 true]) in
  let evs := [TransferDone 0 500 0; TimerFired 0; TransferDone 0 200 0] in
  exists r, exec r0 evs = Some r /\
    transfers_done evs = 2%nat /\
    count_calls is_finish (stats_ r) = 3%nat.
Proof.
  cbn zeta. eexists. split; [vm_compute; reflexivity|].
  split; [reflexivity|].
  match goal with
  | |- count_calls is_finish (stats_ ?r) = _ =>
      assert (E : exec (async_perform (configure [call_retry 2 true]))
                       [TransferDone 0 500 0; TimerFired 0;
                        TransferDone 0 200 0] = Some r)
        by (vm_compute; reflexivity)
  end.
  destruct (statistics_accounting [call_retry 2 true] _ _ E)
    as (_ & _ & _ & H).
  apply H; [vm_compute; reflexivity | vm_compute; reflexivity].
Defined.

(** ** Requests that make one attempt *)
Lemma stored_retries n f r :
  retries (retry_ (Request_retry n f r))
  = if n <=? 0 then 1 else to_short n.
Proof. unfold Request_retry, retry. cbn. now destruct (n <=? 0). Qed.

(** X10: a request configured with [retry(n, f)] where [n <= 1] (0 and
    negative counts are stored as 1), or where [32768 <= n <= 65537] (which
    the [short] narrows to at most 1), makes one attempt: in every reachable
    state one transfer has been submitted, no timer is armed, and the
    completion of the transfer ends the request. *)
Theorem single_attempt
    (calls : list BuilderCall) (n : Z) (f : bool)
    (evs : list Event) (r : RequestImpl) :
  n <= 1 \/ 32768 <= n <= 65537 ->
  exec (async_perform (Request_retry n f (configure calls))) evs = Some r ->
  retries (retry_ r) <= 1 /\
  (n <= 1 -> retries (retry_ r) = 1) /\
  attempts r = 1%nat /\
  current (retry_ r) = 1 /\
  timer_pending r = false /\
  (forall err code rnd r',
     deliver r (TransferDone err code rnd) = Some r' -> pending r' = false).
Proof.
  intros Hn Hex.
  assert (Hu : unsubmitted (Request_retry n f (configure calls))).
  { apply (unsubmitted_apply_call _ (call_retry n f)), unsubmitted_configure. }
  destruct (async_perform_establishes _ Hu) as (Hinv0 & _ & Hr0 & _).
  destruct (exec_invariant evs _ _ Hinv0 Hex) as (Hinv & _ & HR & _).
  rewrite Hr0, stored_retries in HR.
  assert (HR1 : retries (retry_ r) <= 1 /\ (n <= 1 -> retries (retry_ r) = 1)).
  { rewrite HR. destruct (Z.leb_spec n 0); [lia|].
    destruct Hn as [Hn|Hn].
    - rewrite to_short_small by lia. lia.
    - unfold to_short. replace (n + 32768) with ((n - 32768) + 1 * 65536) by lia.
      rewrite Z.mod_add by lia. rewrite Z.mod_small by lia. lia. }
  destruct HR1 as (Hle & Heq).
  assert (Hfacts : Z.of_nat (attempts r) = 1 /\ current (retry_ r) = 1 /\
                   timer_pending r = false).
  { unfold request_inv in Hinv. cbn zeta in Hinv.
    destruct Hinv as (_ & H1 & H).
    destruct (easy_handler (easy_ r)); destruct (timer_pending r);
      try tauto; split_and!; try reflexivity; lia. }
  destruct Hfacts as (Ha & Hc & Ht).
  split_and!; try assumption; [lia|].
  intros err code rnd r' Hd.
  destruct (request_inv_step r _ r' Hinv (deliver_effect _ _ _ Hd))
    as (_ & Hb & _).
  apply budget_zero. cbn in Hb.
  assert (budget r <= 1)%nat; [|lia].
  unfold budget. rewrite Ht.
  destruct (easy_handler (easy_ r)) as [[|]|]; lia.
Qed.

Lemma single_attempt_witness :
  let r0 := async_perform (Request_retry 40000 true (configure [])) in
  exists r, exec r0 [TransferDone 0 503 1] = Some r /\
            attempts r = 1%nat /\ pending r = false.
Proof.
  cbn zeta. eexists. split; [vm_compute; reflexivity|].
  match goal with
  | |- attempts ?r = _ /\ _ =>
      assert (E : exec (async_perform (Request_retry 40000 true (configure [])))
                       [TransferDone 0 503 1] = Some r)
        by (vm_compute; reflexivity)
  end.
  destruct (single_attempt [] 40000 true _ _ ltac:(lia) E)
    as (_ & _ & Ha & _).
  split; [exact Ha | vm_compute; reflexivity].
Defined.

(** ** The number of attempts made *)
Lemma run_done env fuel r : pending r = false -> run fuel env r = r.
Proof.
  intros H. destruct fuel as [|fuel]; [reflexivity|]. cbn [run].
  unfold pending, in_flight, next_event in *.
  destruct (easy_handler (easy_ r)); [discriminate|]. cbn in H. now rewrite H.
Qed.

Lemma run_step env fuel r ev r' :
  next_event env r = Some ev -> deliver r ev = Some r' ->
  run (S fuel) env r = run fuel env r'.
Proof. intros H1 H2. cbn [run]. now rewrite H1, H2. Qed.

Lemma next_event_transfer env r h :
  easy_handler (easy_ r) = Some h ->
  next_event env r
  = Some (TransferDone (env (attempts r)).1.1.1 (env (attempts r)).1.1.2
                       (env (attempts r)).1.2).
Proof.
  intros H. unfold next_event. rewrite H.
  now destruct (env (attempts r)).1 as [[e c] n].
Qed.

Lemma next_event_timer env r :
  easy_handler (easy_ r) = None -> timer_pending r = true ->
  next_event env r = Some (TimerFired (env (attempts r)).2).
Proof. intros H1 H2. unfold next_event. now rewrite H1, H2. Qed.

Lemma deliver_transfer_some r h err code rnd :
  easy_handler (easy_ r) = Some h ->
  exists r', deliver r (TransferDone err code rnd) = Some r'.
Proof. intros H. cbn. rewrite H. destruct h; eauto. Qed.

Lemma deliver_timer_some r err :
  timer_pending r = true -> exists r', deliver r (TimerFired err) = Some r'.
Proof. intros H. cbn. rewrite H. eauto. Qed.

Lemma worthy_goes_on r err code :
  current (retry_ r) < retries (retry_ r) ->
  retry_worthy (on_fails (retry_ r)) err code ->
  ~ finish_condition err (complete_transfer code r).
Proof.
  unfold retry_worthy, finish_condition, get_response_code. cbn.
  intros Hroom Hw [[H1 H2]|[H|[H1 H2]]]; [| lia |];
    destruct Hw as [[W1 W2]|[W1 W2]]; try lia; congruence.
Qed.

Lemma run_retry_loop env R f : forall d r fuel,
  request_inv r ->
  in_flight r = true ->
  (easy_handler (easy_ r) = Some Handler_on_completed -> R <= 1) ->
  retries (retry_ r) = R -> on_fails (retry_ r) = f ->
  Z.of_nat (attempts r + d) <= Z.max 1 R ->
  (forall j, (attempts r <= j < attempts r + d)%nat -> goes_on f (env j)) ->
  (Z.of_nat (attempts r + d) = Z.max 1 R \/
   ~ goes_on f (env (attempts r + d)%nat)) ->
  (budget r <= fuel)%nat ->
  attempts (run fuel env r) = (attempts r + d)%nat /\
  pending (run fuel env r) = false.
Proof.
  induction d as [|d IH]; intros r fuel Hinv Hfl Hoc HR Hf Hk Hgo Hstop Hfuel.
  - rewrite Nat.add_0_r in *.
    unfold in_flight in Hfl.
    destruct (easy_handler (easy_ r)) as [h|] eqn:Eh; [|discriminate].
    destruct (deliver_transfer_some r h (env (attempts r)).1.1.1
                (env (attempts r)).1.1.2 (env (attempts r)).1.2 Eh)
      as [r1 Hd].
    assert (Hb : (1 <= budget r)%nat)
      by (unfold budget; rewrite Eh; destruct h; lia).
    destruct fuel as [|fuel]; [lia|].
    rewrite (run_step env fuel r _ r1 (next_event_transfer env r h Eh) Hd).
    destruct (request_inv_step r _ r1 Hinv (deliver_effect _ _ _ Hd))
      as (Hinv1 & Hb1 & HR1 & Hf1 & _).
    cbn [is_completion] in Hb1.
    remember (TransferDone (env (attempts r)).1.1.1 (env (attempts r)).1.1.2
                           (env (attempts r)).1.2) as ev eqn:Eev.
    destruct (deliver_effect _ _ _ Hd)
      as [ev r1 Hev _ _ _ _
         |err code rnd h' r1 Hh Hfin Hh' Ha Hr Hres
         |err code rnd r1 Hh Hgo' Hh' Ha Hr Hp
         |r1 Ht1 Hh' Ha Hr Hp
         |err r1 Herr Ht1 He Hr Hres]; try discriminate Eev.
    + subst ev. discriminate Hev.
    + assert (Hp1 : pending r1 = false).
      { unfold pending, in_flight, timer_pending. rewrite Hh', Hr.
        destruct (request_inv_exclusive r Hinv) as (Hex & _).
        unfold in_flight, timer_pending in Hex. rewrite Eh in Hex.
        now rewrite (Hex eq_refl). }
      rewrite (run_done env fuel r1 Hp1). now split.
    + injection Eev as -> -> ->.
      apply backoff_needs_room in Hgo' as [Hroom Hw].
      assert (Hcur : current (retry_ r) = Z.of_nat (attempts r)).
      { unfold request_inv in Hinv. cbn zeta in Hinv. rewrite Eh in Hinv.
        destruct Hinv as (_ & _ & H). destruct (timer_pending r); [tauto|lia]. }
      assert (Hterr : (env (attempts r)).2 <> 0).
      { destruct Hstop as [Hs|Hs]; [lia|].
        intros E. apply Hs. split; [now rewrite <- Hf | exact E]. }
      assert (Htp : timer_pending r1 = true)
        by (unfold timer_pending; rewrite Hr; reflexivity).
      destruct (deliver_timer_some r1 (env (attempts r1)).2 Htp) as [r2 Hd2].
      assert (Hb2 : (2 <= budget r1)%nat)
        by (unfold budget; rewrite Hh', Htp; lia).
      destruct fuel as [|fuel]; [lia|].
      rewrite (run_step env fuel r1 _ r2 (next_event_timer env r1 Hh' Htp) Hd2).
      rewrite Ha in Hd2.
      remember (TimerFired (env (attempts r)).2) as ev2 eqn:Eev2.
      destruct (deliver_effect _ _ _ Hd2)
        as [ev r2 Hev _ _ _ _
           |err code rnd h' r2 Hh2 _ _ _ _ _
           |err code rnd r2 Hh2 _ _ _ _ _
           |r2 Ht2 Hh2 Ha2 Hr2 Hp2
           |err r2 Herr Ht2 He2 Hr2 Hres2];
        try discriminate Eev2.
      { subst ev. discriminate Hev. }
      { injection Eev2 as E0. congruence. }
      assert (Hp2 : pending r2 = false).
      { unfold pending, in_flight, timer_pending. rewrite He2, Hh', Hr2.
        unfold disarm_timer. cbn. now destruct (timer (retry_ r1)). }
      rewrite (run_done env fuel r2 Hp2). split; [|exact Hp2].
      unfold attempts in *. now rewrite He2.
  - unfold in_flight in Hfl.
    destruct (easy_handler (easy_ r)) as [h|] eqn:Eh; [|discriminate].
    assert (Hcur : current (retry_ r) = Z.of_nat (attempts r)).
    { unfold request_inv in Hinv. cbn zeta in Hinv. rewrite Eh in Hinv.
      destruct Hinv as (_ & _ & H). destruct (timer_pending r); [tauto|lia]. }
    assert (Hone : 1 <= Z.of_nat (attempts r)).
    { unfold request_inv in Hinv. cbn zeta in Hinv. tauto. }
    assert (Hh : h = Handler_on_retry).
    { destruct h; [|reflexivity]. specialize (Hoc eq_refl). lia. }
    subst h.
    destruct (Hgo (attempts r) ltac:(lia)) as (Hw & Hterr).
    assert (Hroom : current (retry_ r) < retries (retry_ r)) by lia.
    destruct (deliver_transfer_some r _ (env (attempts r)).1.1.1
                (env (attempts r)).1.1.2 (env (attempts r)).1.2 Eh)
      as [r1 Hd].
    assert (Hb : (3 <= budget r)%nat) by (unfold budget; rewrite Eh; lia).
    destruct fuel as [|fuel]; [lia|].
    rewrite (run_step env fuel r _ r1 (next_event_transfer env r _ Eh) Hd).
    destruct (request_inv_step r _ r1 Hinv (deliver_effect _ _ _ Hd))
      as (Hinv1 & Hb1 & HR1 & Hf1 & _).
    cbn [is_completion] in Hb1.
    remember (TransferDone (env (attempts r)).1.1.1 (env (attempts r)).1.1.2
                           (env (attempts r)).1.2) as ev eqn:Eev.
    destruct (deliver_effect _ _ _ Hd)
      as [ev r1 Hev _ _ _ _
         |err code rnd h' r1 Hh Hfin Hh' Ha Hr Hres
         |err code rnd r1 Hh Hgo' Hh' Ha Hr Hp
         |r1 Ht1 Hh' Ha Hr Hp
         |err r1 Herr Ht1 He Hr Hres]; try discriminate Eev.
    + subst ev. discriminate Hev.
    + exfalso. injection Eev as -> -> ->.
      assert (h' = Handler_on_retry) by congruence. subst h'.
      apply (worthy_goes_on r (env (attempts r)).1.1.1 (env (attempts r)).1.1.2 Hroom);
        [now rewrite Hf | now apply Hfin].
    + injection Eev as -> -> ->.
      assert (Htp : timer_pending r1 = true)
        by (unfold timer_pending; rewrite Hr; reflexivity).
      destruct (deliver_timer_some r1 (env (attempts r1)).2 Htp) as [r2 Hd2].
      destruct fuel as [|fuel]; [lia|].
      rewrite (run_step env fuel r1 _ r2 (next_event_timer env r1 Hh' Htp) Hd2).
      destruct (request_inv_step r1 _ r2 Hinv1 (deliver_effect _ _ _ Hd2))
        as (Hinv2 & Hb2 & HR2 & Hf2 & _).
      cbn [is_completion] in Hb2.
      rewrite Ha, Hterr in Hd2.
      remember (TimerFired 0) as ev2 eqn:Eev2.
      destruct (deliver_effect _ _ _ Hd2)
        as [ev r2 Hev _ _ _ _
           |err code rnd h' r2 Hh2 _ _ _ _ _
           |err code rnd r2 Hh2 _ _ _ _ _
           |r2 Ht2 Hh2 Ha2 Hr2 Hp2
           |err r2 Herr Ht2 He2 Hr2 Hres2];
        try discriminate Eev2.
      { subst ev. discriminate Hev. }
      2: { injection Eev2 as E0. congruence. }
      assert (Hfl2 : in_flight r2 = true)
        by (unfold in_flight; now rewrite Hh2).
      assert (E : (attempts r + S d = attempts r2 + d)%nat)
        by (rewrite Ha2, Ha; lia).
      rewrite E in *.
      apply (IH r2 fuel Hinv2 Hfl2); try congruence; try lia.
      * intros j Hj. apply Hgo. rewrite Ha2, Ha in Hj. lia.
Qed.

(** X11: the number of attempts a request makes, for an engine and a timer
    given as an oracle.  If the attempts before the [k]-th all end in a
    retry-worthy outcome followed by a successful timer, and the [k]-th is
    the last one allowed ([k = max(1, retries)]) or ends otherwise, the
    request driven to its end has submitted exactly [k] transfers. *)
Theorem attempts_made
    (calls : list BuilderCall) (env : Oracle) (k : nat) :
  let r0 := async_perform (configure calls) in
  let R := retries (retry_ r0) in
  let f := on_fails (retry_ r0) in
  (1 <= k)%nat -> Z.of_nat k <= Z.max 1 R ->
  (forall j, (1 <= j < k)%nat -> goes_on f (env j)) ->
  (Z.of_nat k = Z.max 1 R \/ ~ goes_on f (env k)) ->
  attempts (run (budget r0) env r0) = k /\
  pending (run (budget r0) env r0) = false.
Proof.
  cbn zeta. intros Hk1 Hk Hgo Hstop.
  pose proof (unsubmitted_configure calls) as Hu.
  destruct (async_perform_establishes _ Hu) as (Hinv0 & _ & _ & Ha0 & Hp0).
  destruct (stats_inv_async_perform _ Hu (stats_configure calls))
    as (_ & _ & Hoc & _).
  assert (Hfl : in_flight (async_perform (configure calls)) = true).
  { unfold async_perform, in_flight.
    now destruct (retries _ <=? 1). }
  replace k with (attempts (async_perform (configure calls)) + (k - 1))%nat
    by (rewrite Ha0; lia).
  apply (run_retry_loop env _ _ (k - 1)%nat _ _ Hinv0 Hfl Hoc eq_refl eq_refl).
  - rewrite Ha0. replace (1 + (k - 1))%nat with k by lia. exact Hk.
  - intros j Hj. apply Hgo. rewrite Ha0 in Hj. lia.
  - rewrite Ha0. replace (1 + (k - 1))%nat with k by lia. exact Hstop.
  - lia.
Qed.

Lemma attempts_made_witness :
  let env : Oracle :=
    fun j => if Nat.eqb j 1 then ((7, 0, 5), 0) else ((0, 200, 1), 0) in
  let r0 := async_perform (configure [call_retry 3 true]) in
  attempts (run (budget r0) env r0) = 2%nat /\
  pending (run (budget r0) env r0) = false.
Proof.
  cbn zeta.
  apply (attempts_made [call_retry 3 true]
           (fun j => if Nat.eqb j 1 then ((7, 0, 5), 0) else ((0, 200, 1), 0))
           2%nat).
  - lia.
  - vm_compute. discriminate.
  - intros j Hj. assert (j = 1%nat) as -> by lia.
    split; [left; split; [discriminate | reflexivity] | reflexivity].
  - right. intros [[[H _]|[_ H]] _]; [now apply H | vm_compute in H; now apply H].
Defined.

(** ** Timeouts *)
Lemma timeout_on_completed err r :
  timeout_ms_ (on_completed err r) = timeout_ms_ r.
Proof.
  unfold on_completed. destruct (is_error err); cbn; [|destruct (IsOk _)];
    reflexivity.
Qed.

Lemma timeout_record_attempt err r :
  timeout_ms_ (record_attempt err r) = timeout_ms_ r.
Proof. unfold record_attempt. now destruct (is_error err). Qed.

Lemma timeouts_deliver r ev r' :
  deliver r ev = Some r' ->
  timeout_ms_ r' = timeout_ms_ r /\
  easy_timeout_ms (easy_ r') = easy_timeout_ms (easy_ r).
Proof.
  destruct ev as [err code rnd|err|ptr size nmemb|size nmemb]; cbn [deliver].
  - destruct (easy_handler (easy_ r)) as [[|]|]; [| |discriminate];
      intros [= <-].
    + now rewrite timeout_on_completed, easy_on_completed.
    + unfold on_retry.
      destruct (record_attempt_frame err (complete_transfer code r))
        as (He & _).
      destruct (not_need_retry _ _).
      * now rewrite timeout_on_completed, easy_on_completed,
          timeout_record_attempt, He.
      * cbn. now rewrite timeout_record_attempt, He.
  - destruct (timer_pending r); [|discriminate]. intros [= <-].
    unfold on_retry_timer. destruct (is_error err); cbn [negb].
    + now rewrite timeout_on_completed, easy_on_completed.
    + now split.
  - destruct (in_flight r && header_function (easy_ r)); [|discriminate].
    cbn. intros [= <-]. unfold parse_header. now destruct (response_ r).
  - destruct (in_flight r && read_function (easy_ r)); [|discriminate].
    intros [= <-]. unfold PutMethodReadCallback.
    now destruct (put_method_cursor r).
Qed.

Lemma timeouts_configure calls :
  timeout_ms_ (configure calls) = last_timeout calls /\
  easy_timeout_ms (easy_ (configure calls)) = last_timeout calls.
Proof.
  unfold configure, last_timeout.
  assert (H0 : timeout_ms_ RequestImpl_new = 0 /\
               easy_timeout_ms (easy_ RequestImpl_new) = 0) by now split.
  revert H0. generalize RequestImpl_new, 0.
  induction calls as [|c calls IH]; intros r t Hr; [exact Hr|].
  cbn. apply IH. destruct c; cbn; try exact Hr. now split.
Qed.

(** X12: the per-attempt timeout given to the transfer handle and the one
    the deadline is computed from are the same in every reachable state: the
    argument of the last [timeout()] call (0 without one); callbacks change
    neither, so [complete_timeout] gives the same value at any time. *)
Theorem timeouts_agree
    (calls : list BuilderCall) (evs : list Event) (r : RequestImpl) :
  exec (async_perform (configure calls)) evs = Some r ->
  timeout_ms_ r = last_timeout calls /\
  easy_timeout_ms (easy_ r) = last_timeout calls /\
  Request_async_perform_timeout r
    = Request_async_perform_timeout (configure calls).
Proof.
  intros Hex.
  destruct (timeouts_configure calls) as (Ht & He).
  assert (H0 : timeout_ms_ (async_perform (configure calls)) = last_timeout calls
               /\ easy_timeout_ms (easy_ (async_perform (configure calls)))
                  = last_timeout calls).
  { unfold async_perform. destruct (retries _ <=? 1); cbn; now split. }
  assert (Hframe : forall evs r0 r1, exec r0 evs = Some r1 ->
            timeout_ms_ r1 = timeout_ms_ r0 /\
            easy_timeout_ms (easy_ r1) = easy_timeout_ms (easy_ r0)).
  { clear. induction evs as [|ev evs IH]; intros r0 r1 H; cbn in H.
    - now injection H as <-.
    - destruct (deliver r0 ev) as [r2|] eqn:Ed; [|discriminate].
      destruct (timeouts_deliver _ _ _ Ed) as (A & B).
      destruct (IH _ _ H) as (C & D). split; congruence. }
  destruct (Hframe _ _ _ Hex) as (A & B). destruct H0 as (C & D).
  pose proof (unsubmitted_configure calls) as Hu.
  destruct (async_perform_establishes _ Hu) as (Hinv0 & _ & Hr0 & _).
  destruct (exec_invariant evs _ _ Hinv0 Hex) as (_ & _ & HR & _).
  split_and!; try congruence.
  unfold Request_async_perform_timeout, RequestImpl_timeout,
    RequestImpl_retries. congruence.
Qed.

Lemma timeouts_agree_witness :
  let calls := [call_timeout 100; call_retry 2 false; call_timeout 250] in
  exists r,
    exec (async_perform (configure calls)) [TransferDone 0 503 0] = Some r /\
    timeout_ms_ r = 250 /\ easy_timeout_ms (easy_ r) = 250.
Proof.
  cbn zeta. eexists. split; [vm_compute; reflexivity|].
  match goal with
  | |- timeout_ms_ ?r = _ /\ _ =>
      assert (E : exec (async_perform
                          (configure [call_timeout 100; call_retry 2 false;
                                      call_timeout 250]))
                       [TransferDone 0 503 0] = Some r)
        by (vm_compute; reflexivity)
  end.
  destruct (timeouts_agree _ _ _ E) as (A & B & _).
  split; [exact A | exact B].
Defined.

(** ** The headers of the delivered response *)

Lemma exec_app a : forall r b r1,
  exec r a = Some r1 -> exec r (a ++ b) = exec r1 b.
Proof.
  induction a as [|ev a IH]; intros r b r1 H; cbn in *.
  - now injection H as <-.
  - destruct (deliver r ev) as [r2|]; [|discriminate]. now apply IH.
Qed.

Lemma exec_headers lines : forall r resp,
  in_flight r = true -> header_function (easy_ r) = true ->
  response_ r = Some resp ->
  exists r1,
    exec r (header_events lines) = Some r1 /\
    response_ r1
      = Some (mkResponse (parse_lines (headers resp) lines) (sink_stream resp)) /\
    easy_ r1 = easy_ r /\ retry_ r1 = retry_ r /\ promise_ r1 = promise_ r.
Proof.
  induction lines as [|[[ptr size] nmemb] lines IH]; intros r resp Hfl Hh Hr.
  - exists r. cbn. destruct resp. repeat split. exact Hr.
  - cbn [header_events fmap list_fmap exec deliver fst snd].
    rewrite Hfl, Hh. cbn [andb on_header fmap option_fmap option_map snd].
    set (r' := parse_header ptr (Z.to_nat (to_size_t (size * nmemb))) r).
    assert (Hr' : response_ r'
              = Some (mkResponse
                        (parse_header_map ptr
                           (Z.to_nat (to_size_t (size * nmemb))) (headers resp))
                        (sink_stream resp))
            /\ easy_ r' = easy_ r /\ retry_ r' = retry_ r
            /\ promise_ r' = promise_ r).
    { unfold r', parse_header. rewrite Hr. repeat split. }
    destruct Hr' as (Hresp' & He' & Hrt' & Hp').
    destruct (IH r' _ ltac:(unfold in_flight; now rewrite He')
                 ltac:(now rewrite He') Hresp')
      as (r1 & Hex & Hr1 & He1 & Hrt1 & Hp1).
    exists r1. split; [exact Hex|]. cbn in Hr1.
    split; [exact Hr1|]. split_and!; congruence.
Qed.

Lemma async_perform_shape c :
  easy_handler (easy_ (async_perform c))
    = Some (if retries (retry_ c) <=? 1 then Handler_on_completed
            else Handler_on_retry) /\
  header_function (easy_ (async_perform c)) = true /\
  response_ (async_perform c) = Some (mkResponse ∅ []) /\
  promise_ (async_perform c) = promise_ c /\
  retry_ (async_perform c) = retry_ c.
Proof.
  unfold async_perform. cbn. destruct (retries (retry_ c) <=? 1); repeat split.
Qed.

Lemma finish_with_value r code rnd resp :
  easy_handler (easy_ r) = Some Handler_on_completed \/
  (easy_handler (easy_ r) = Some Handler_on_retry /\ code < 500) ->
  response_ r = Some resp ->
  exists r',
    deliver r (TransferDone 0 code rnd) = Some r' /\
    promise_ r' = promise_ r ++ [set_value (Some resp)].
Proof.
  intros Hh Hr. cbn [deliver].
  destruct Hh as [->|[-> Hc]].
  - eexists. split; [reflexivity|].
    destruct (on_completed_outcome 0 (complete_transfer code r)) as (_ & _ & H).
    destruct (H eq_refl) as (-> & _). cbn. now rewrite Hr.
  - eexists. split; [reflexivity|].
    assert (F : finish_condition 0 (complete_transfer code r)).
    { left. split; [reflexivity | exact Hc]. }
    rewrite (on_retry_finish _ _ _ F).
    destruct (on_completed_outcome 0
                (record_attempt 0 (complete_transfer code r))) as (_ & _ & H).
    destruct (H eq_refl) as (-> & _).
    destruct (record_attempt_frame 0 (complete_transfer code r))
      as (_ & _ & -> & _).
    destruct (record_attempt_live 0 (complete_transfer code r)) as (-> & _).
    cbn. now rewrite Hr.
Qed.

(** Two executions spelled out.  When the first attempt ends without
    error (with a status below 500, or with one attempt stored), the value
    is the response whose header map is [parse_header] applied, in order,
    to the header buffers of that attempt.  When the first attempt ends in
    a status of 500 or more and is retried, the headers it received are
    dropped: the value holds the headers of the second attempt alone. *)
Theorem response_headers_of_last_attempt
    (calls : list BuilderCall) (l1 l2 : list (list ascii * Z * Z))
    (code1 code2 rnd1 rnd2 : Z) :
  let r0 := async_perform (configure calls) in
  (code1 < 500 \/ retries (retry_ r0) <= 1 ->
   exists r,
     exec r0 (header_events l1 ++ [TransferDone 0 code1 rnd1]) = Some r /\
     promise_ r = [set_value (Some (mkResponse (parse_lines ∅ l1) []))]) /\
  (500 <= code1 -> 1 < retries (retry_ r0) -> code2 < 500 ->
   exists r,
     exec r0 (header_events l1 ++ [TransferDone 0 code1 rnd1; TimerFired 0]
              ++ header_events l2 ++ [TransferDone 0 code2 rnd2]) = Some r /\
     promise_ r = [set_value (Some (mkResponse (parse_lines ∅ l2) []))]).
Proof.
  cbn zeta.
  destruct (unsubmitted_configure calls) as (Hp & _ & _ & _ & Hc1 & _).
  destruct (async_perform_shape (configure calls))
    as (Hh0 & Hhf0 & Hr0 & Hp0 & Hrt0).
  set (r0 := async_perform (configure calls)) in *.
  rewrite Hp in Hp0.
  assert (Hfl0 : in_flight r0 = true) by (unfold in_flight; now rewrite Hh0).
  destruct (exec_headers l1 r0 _ Hfl0 Hhf0 Hr0)
    as (r1 & Hex1 & Hr1 & He1 & Hrt1 & Hp1).
  cbn [headers sink_stream] in Hr1.
  split.
  - intros Hcond.
    destruct (finish_with_value r1 code1 rnd1 _
                ltac:(rewrite He1, Hh0, <- Hrt0;
                      destruct (Z.leb_spec (retries (retry_ r0)) 1);
                      [left; reflexivity | right; split; [reflexivity|lia]])
                Hr1) as (r & Hd & Hpr).
    exists r. rewrite (exec_app _ _ _ _ Hex1). cbn [exec]. rewrite Hd.
    split; [reflexivity|]. now rewrite Hpr, Hp1, Hp0.
  - intros H500 HR Hc2.
    assert (Hh1 : easy_handler (easy_ r1) = Some Handler_on_retry).
    { rewrite He1, Hh0, <- Hrt0.
      destruct (Z.leb_spec (retries (retry_ r0)) 1); [lia | reflexivity]. }
    assert (F : ~ finish_condition 0 (complete_transfer code1 r1)).
    { unfold finish_condition, get_response_code. cbn.
      rewrite Hrt1, Hrt0, Hc1. rewrite Hrt0 in HR.
      intros [[_ H]|[H|[H _]]]; lia. }
    set (r2 := on_retry 0 rnd1 (complete_transfer code1 r1)).
    assert (Hd1 : deliver r1 (TransferDone 0 code1 rnd1) = Some r2).
    { cbn [deliver]. now rewrite Hh1. }
    assert (Hr2 : timer_pending r2 = true /\
                  header_function (easy_ r2) = true /\
                  promise_ r2 = []).
    { unfold r2. rewrite (on_retry_backoff _ _ _ F).
      unfold timer_pending. cbn. rewrite He1, Hp1. now split_and!. }
    destruct Hr2 as (Ht2 & Hhf2 & Hp2).
    set (r3 := on_retry_timer 0 (disarm_timer r2)).
    assert (Hd2 : deliver r2 (TimerFired 0) = Some r3).
    { cbn [deliver]. now rewrite Ht2. }
    assert (Hr3 : easy_handler (easy_ r3) = Some Handler_on_retry /\
                  header_function (easy_ r3) = true /\
                  response_ r3 = Some (mkResponse ∅ []) /\
                  promise_ r3 = []).
    { unfold r3, on_retry_timer. cbn. rewrite Hhf2, Hp2. now split_and!. }
    destruct Hr3 as (Hh3 & Hhf3 & Hresp3 & Hp3).
    assert (Hfl3 : in_flight r3 = true) by (unfold in_flight; now rewrite Hh3).
    destruct (exec_headers l2 r3 _ Hfl3 Hhf3 Hresp3)
      as (r4 & Hex4 & Hr4 & He4 & Hrt4 & Hp4).
    cbn [headers sink_stream] in Hr4.
    destruct (finish_with_value r4 code2 rnd2 _
                ltac:(right; split; [now rewrite He4 | exact Hc2]) Hr4)
      as (r & Hd & Hpr).
    exists r. rewrite (exec_app _ _ _ _ Hex1).
    cbn [app exec]. rewrite Hd1, Hd2.
    rewrite (exec_app _ _ _ _ Hex4). cbn [exec]. rewrite Hd.
    split; [reflexivity|]. now rewrite Hpr, Hp4, Hp3.
Qed.

Lemma response_headers_of_last_attempt_witness :
  let line1 := (list_ascii_of_string "X-Try: 1" ++ [CR; LF], 1, 10) in
  let line2 := (list_ascii_of_string "X-Try: 2" ++ [CR; LF], 1, 10) in
  let r0 := async_perform (configure [call_retry 2 false]) in
  500 <= 503 /\ 1 < retries (retry_ r0) /\ 200 < 500 /\
  exists r,
    exec r0 (header_events [line1] ++ [TransferDone 0 503 4; TimerFired 0]
             ++ header_events [line2] ++ [TransferDone 0 200 4]) = Some r /\
    promise_ r = [set_value (Some (mkResponse (parse_lines ∅ [line2]) []))].
Proof.
  cbn zeta. split; [lia|]. split; [vm_compute; reflexivity|]. split; [lia|].
  apply (response_headers_of_last_attempt [call_retry 2 false]).
  - lia.
  - vm_compute. reflexivity.
  - lia.
Defined.

(** ** The resolution and the attempt that ended the request *)

Lemma attempt_lines_snoc evs ev :
  attempt_lines (evs ++ [ev]) = attempt_lines_step (attempt_lines evs) ev.
Proof. unfold attempt_lines. now rewrite foldl_app. Qed.

Lemma parse_lines_snoc h lines l :
  parse_lines h (lines ++ [l])
  = parse_header_map l.1.1 (Z.to_nat (to_size_t (l.1.2 * l.2)))
                     (parse_lines h lines).
Proof. unfold parse_lines. now rewrite foldl_app. Qed.

(** At every point of every execution, the response of the request, while
    there is one, and any value the promise has been given, hold the header
    map parsed from the buffers of the current attempt alone. *)
Lemma response_tracks_attempt (calls : list BuilderCall) (evs : list Event) :
  forall r,
  exec (async_perform (configure calls)) evs = Some r ->
  (forall resp, response_ r = Some resp ->
     resp = mkResponse (parse_lines ∅ (attempt_lines evs)) []) /\
  (forall x, set_value x ∈ promise_ r ->
     x = Some (mkResponse (parse_lines ∅ (attempt_lines evs)) [])).
Proof.
  pose proof (unsubmitted_configure calls) as Hu.
  destruct (async_perform_establishes _ Hu) as (Hinv0 & _).
  induction evs as [|ev evs IH] using rev_ind; intros r Hex.
  - cbn in Hex. injection Hex as <-.
    destruct (async_perform_shape (configure calls))
      as (_ & _ & Hr0 & Hp0 & _).
    destruct Hu as (Hp & _). rewrite Hp in Hp0. rewrite Hr0, Hp0.
    split; [intros resp [= <-]; reflexivity|].
    intros x Hx. now apply elem_of_nil in Hx.
  - apply exec_snoc_inv in Hex as (r1 & Hex1 & Hd).
    destruct (IH r1 Hex1) as (IHr & _).
    destruct (exec_invariant evs _ _ Hinv0 Hex1) as (Hinv1 & _).
    destruct (live_inv_exec evs _ _ Hinv0 (live_inv_async_perform _ Hu) Hex1)
      as (Hresp & _).
    destruct (request_inv_exclusive r1 Hinv1) as (_ & Hzero).
    assert (Hp1 : pending r1 = true).
    { destruct (pending r1) eqn:E; [reflexivity|].
      rewrite (deliver_terminal r1 ev E) in Hd. discriminate. }
    assert (Hnil : promise_ r1 = []).
    { specialize (Hzero Hp1). unfold resolutions in Hzero.
      now destruct (promise_ r1). }
    rewrite attempt_lines_snoc.
    assert (Hcompleted : forall err x,
              promise_ x = [] -> response_ x = response_ r1 ->
              in_flight r1 = true \/ err <> 0 ->
              (forall resp, response_ (on_completed err x) = Some resp ->
                 resp = mkResponse (parse_lines ∅ (attempt_lines evs)) []) /\
              (forall v, set_value v ∈ promise_ (on_completed err x) ->
                 v = Some (mkResponse (parse_lines ∅ (attempt_lines evs)) []))).
    { intros err x Hpx Hrx Hcase.
      destruct (on_completed_outcome err x) as (_ & Hne & He).
      destruct (Z.eq_dec err 0) as [E0|E0].
      - destruct (He E0) as (-> & ->). rewrite Hpx, Hrx.
        split; [discriminate|].
        intros v Hv. apply list_elem_of_singleton in Hv. injection Hv as ->.
        destruct Hcase as [Hfl|]; [|contradiction].
        destruct (Hresp Hfl) as [resp Hr1]. rewrite Hr1.
        now rewrite (IHr resp Hr1).
      - destruct (Hne E0) as (-> & ->). rewrite Hpx, Hrx.
        split; [exact IHr|].
        intros v Hv. apply list_elem_of_singleton in Hv. discriminate. }
    destruct ev as [err code rnd|err|ptr size nmemb|size nmemb];
      cbn [deliver attempt_lines_step] in *.
    + assert (Hfl : in_flight r1 = true).
      { unfold in_flight.
        destruct (easy_handler (easy_ r1)); [reflexivity|discriminate]. }
      destruct (easy_handler (easy_ r1)) as [[|]|] eqn:Eh; [| |discriminate];
        injection Hd as <-.
      * apply Hcompleted; [exact Hnil | reflexivity | now left].
      * destruct (record_attempt_frame err (complete_transfer code r1))
          as (_ & _ & Hp & _).
        destruct (record_attempt_live err (complete_transfer code r1))
          as (Hrr & _).
        destruct (finish_condition_dec err (complete_transfer code r1)) as [F|F].
        -- rewrite (on_retry_finish _ _ _ F).
           apply Hcompleted; [now rewrite Hp | now rewrite Hrr | now left].
        -- rewrite (on_retry_backoff _ _ _ F). cbn. rewrite Hp, Hrr. cbn.
           rewrite Hnil. split; [exact IHr|].
           intros v Hv. now apply elem_of_nil in Hv.
    + destruct (timer_pending r1) eqn:Et; [|discriminate]. injection Hd as <-.
      unfold on_retry_timer. destruct (is_error err) eqn:Ee; cbn [negb].
      * apply is_error_true in Ee.
        apply Hcompleted; [exact Hnil | reflexivity | now right].
      * cbn. rewrite Hnil. split; [intros resp [= <-]; reflexivity|].
        intros v Hv. now apply elem_of_nil in Hv.
    + destruct (in_flight r1 && header_function (easy_ r1)); [|discriminate].
      cbn in Hd. injection Hd as <-. rewrite parse_lines_snoc. cbn [fst snd].
      unfold parse_header. destruct (response_ r1) as [resp1|] eqn:Er1; cbn.
      * rewrite Hnil. rewrite (IHr resp1 eq_refl). cbn.
        split; [intros resp [= <-]; reflexivity|].
        intros v Hv. now apply elem_of_nil in Hv.
      * rewrite Er1, Hnil. split; [discriminate|].
        intros v Hv. now apply elem_of_nil in Hv.
    + destruct (in_flight r1 && read_function (easy_ r1)); [|discriminate].
      injection Hd as <-. unfold PutMethodReadCallback.
      destruct (put_method_cursor r1); cbn; rewrite Hnil;
        (split; [exact IHr|]; intros v Hv; now apply elem_of_nil in Hv).
Qed.

(** The callback that ends a request, and what it does to the promise and
    to the response. *)
Lemma last_callback_resolves
    (calls : list BuilderCall) (evs : list Event) (r : RequestImpl) :
  exec (async_perform (configure calls)) evs = Some r ->
  pending r = false ->
  exists evs' ev r1,
    evs = evs' ++ [ev] /\
    exec (async_perform (configure calls)) evs' = Some r1 /\
    deliver r1 ev = Some r /\
    match ev with
    | TransferDone err code rnd =>
        get_response_code r = code /\
        (err <> 0 ->
           promise_ r = [set_exception err] /\ response_ r = response_ r1) /\
        (err = 0 ->
           exists resp, response_ r1 = Some resp /\
                        promise_ r = [set_value (Some resp)] /\
                        response_ r = None)
    | TimerFired err =>
        err <> 0 /\ promise_ r = [set_exception err] /\
        response_ r = response_ r1
    | _ => False
    end.
Proof.
  intros Hex Hterm.
  pose proof (unsubmitted_configure calls) as Hu.
  destruct (async_perform_establishes _ Hu) as (Hinv0 & _ & _ & _ & Hp0).
  destruct evs as [|ev evs _] using rev_ind.
  { cbn in Hex. injection Hex as <-. congruence. }
  apply exec_snoc_inv in Hex as (r1 & Hex1 & Hd).
  exists evs, ev, r1. split; [reflexivity|]. split; [exact Hex1|].
  split; [exact Hd|].
  destruct (exec_invariant evs _ _ Hinv0 Hex1) as (Hinv1 & _).
  destruct (live_inv_exec evs _ _ Hinv0 (live_inv_async_perform _ Hu) Hex1)
    as (Hresp & _).
  destruct (request_inv_exclusive r1 Hinv1) as (Hexcl & Hzero).
  assert (Hp1 : pending r1 = true).
  { destruct (pending r1) eqn:E; [reflexivity|].
    rewrite (deliver_terminal r1 ev E) in Hd. discriminate. }
  assert (Hnil : promise_ r1 = []).
  { specialize (Hzero Hp1). unfold resolutions in Hzero.
    now destruct (promise_ r1). }
  destruct ev as [err code rnd|err|ptr size nmemb|size nmemb];
    cbn [deliver] in Hd.
  - assert (Hfl : in_flight r1 = true).
    { unfold in_flight.
      destruct (easy_handler (easy_ r1)); [reflexivity|discriminate]. }
    destruct (Hresp Hfl) as [resp Hr1].
    assert (Hdone : forall x,
              easy_ x = easy_ (complete_transfer code r1) ->
              promise_ x = [] -> response_ x = response_ r1 ->
              get_response_code (on_completed err x) = code /\
              (err <> 0 ->
                 promise_ (on_completed err x) = [set_exception err] /\
                 response_ (on_completed err x) = response_ r1) /\
              (err = 0 ->
                 exists resp0,
                   response_ r1 = Some resp0 /\
                   promise_ (on_completed err x) = [set_value (Some resp0)] /\
                   response_ (on_completed err x) = None)).
    { intros x Hx Hpx Hrx.
      destruct (on_completed_outcome err x) as (_ & Hne & He).
      split_and!.
      - unfold get_response_code. now rewrite easy_on_completed, Hx.
      - intros H. destruct (Hne H) as (-> & ->). now rewrite Hpx, Hrx.
      - intros H. destruct (He H) as (-> & ->). rewrite Hpx, Hrx, Hr1.
        exists resp. now split_and!. }
    destruct (easy_handler (easy_ r1)) as [[|]|] eqn:Eh; [| |discriminate];
      injection Hd as <-.
    + apply Hdone; [reflexivity | exact Hnil | reflexivity].
    + destruct (finish_condition_dec err (complete_transfer code r1)) as [F|F].
      * rewrite (on_retry_finish _ _ _ F).
        destruct (record_attempt_frame err (complete_transfer code r1))
          as (He & _ & Hp & _).
        destruct (record_attempt_live err (complete_transfer code r1))
          as (Hrr & _).
        apply Hdone; [exact He | now rewrite Hp | now rewrite Hrr].
      * exfalso. rewrite (on_retry_backoff _ _ _ F) in Hterm.
        unfold pending, timer_pending in Hterm. cbn in Hterm.
        now rewrite orb_true_r in Hterm.
  - destruct (timer_pending r1) eqn:Et; [|discriminate]. injection Hd as <-.
    unfold on_retry_timer in *. destruct (is_error err) eqn:Ee; cbn [negb] in *.
    + apply is_error_true in Ee. split; [exact Ee|].
      destruct (on_completed_outcome err (disarm_timer r1)) as (_ & Hne & _).
      destruct (Hne Ee) as (-> & ->). cbn. now rewrite Hnil.
    + exfalso. unfold pending, in_flight in Hterm. cbn in Hterm. discriminate.
  - exfalso.
    destruct (in_flight r1) eqn:Ef; [|discriminate].
    destruct (header_function (easy_ r1)); [|discriminate].
    cbn in Hd. injection Hd as <-.
    unfold pending, in_flight, parse_header in *.
    destruct (response_ r1); cbn in Hterm; rewrite Ef in Hterm; discriminate.
  - exfalso.
    destruct (in_flight r1) eqn:Ef; [|discriminate].
    destruct (read_function (easy_ r1)); [|discriminate].
    injection Hd as <-.
    unfold pending, in_flight, PutMethodReadCallback in *.
    destruct (put_method_cursor r1); cbn in Hterm; rewrite Ef in Hterm;
      discriminate.
Qed.

(** X7: a request that has reached its end was resolved by the last
    callback delivered, a completion or a timer callback, and by it from
    the state [r1] the request was in.  A completion with a non-zero error
    code gives [set_exception] with that code and leaves the response in
    place; a completion without error gives [set_value] with the very
    response the request held when the callback arrived, which is the
    response built from the header buffers of that attempt, whatever the
    status code (a 5xx after the last attempt is a value), and leaves
    [response_] null; a timer callback resolves only with its own non-zero
    error code. *)
Theorem resolution_follows_last_callback
    (calls : list BuilderCall) (evs : list Event) (r : RequestImpl) :
  exec (async_perform (configure calls)) evs = Some r ->
  pending r = false ->
  exists evs' ev r1,
    evs = evs' ++ [ev] /\
    exec (async_perform (configure calls)) evs' = Some r1 /\
    deliver r1 ev = Some r /\
    match ev with
    | TransferDone err code rnd =>
        get_response_code r = code /\
        (err <> 0 ->
           promise_ r = [set_exception err] /\ response_ r = response_ r1) /\
        (err = 0 ->
           exists resp, response_ r1 = Some resp /\
                        resp = mkResponse
                                 (parse_lines ∅ (attempt_lines evs')) [] /\
                        promise_ r = [set_value (Some resp)] /\
                        response_ r = None)
    | TimerFired err =>
        err <> 0 /\ promise_ r = [set_exception err] /\
        response_ r = response_ r1
    | _ => False
    end.
Proof.
  intros Hex Hp.
  destruct (last_callback_resolves calls evs r Hex Hp)
    as (evs' & ev & r1 & -> & Hex1 & Hd & H).
  exists evs', ev, r1. split_and!; [reflexivity | exact Hex1 | exact Hd |].
  destruct ev as [err code rnd| | |]; try exact H.
  destruct H as (Hc & He & Hok). split_and!; [exact Hc | exact He |].
  intros E. destruct (Hok E) as (resp & Hr1 & Hpr & Hrr).
  exists resp. split_and!; try assumption.
  exact (proj1 (response_tracks_attempt calls evs' r1 Hex1) resp Hr1).
Qed.

Lemma resolution_follows_last_callback_witness :
  let line := (list_ascii_of_string "X-Try: 2" ++ [CR; LF], 1, 10) in
  let r0 := async_perform (configure [call_retry 2 true]) in
  let evs := [TransferDone 0 500 0; TimerFired 0;
              HeaderData line.1.1 line.1.2 line.2; TransferDone 0 500 0] in
  exists r, exec r0 evs = Some r /\ pending r = false /\
            promise_ r
            = [set_value (Some (mkResponse {[ "X-Try"%string := " 2"%string ]}
                                           []))].
Proof.
  cbn zeta. eexists. split; [vm_compute; reflexivity|].
  split; [vm_compute; reflexivity|].
  match goal with
  | |- promise_ ?r = _ =>
      assert (E : exec (async_perform (configure [call_retry 2 true]))
                       [TransferDone 0 500 0; TimerFired 0;
                        HeaderData (list_ascii_of_string "X-Try: 2" ++ [CR; LF])
                                   1 10;
                        TransferDone 0 500 0] = Some r)
        by (vm_compute; reflexivity);
      assert (T : pending r = false) by (vm_compute; reflexivity)
  end.
  destruct (resolution_follows_last_callback [call_retry 2 true] _ _ E T)
    as (evs' & ev & r1 & Heq & _ & _ & H).
  change (?a :: ?b :: ?c :: [?d]) with ([a; b; c] ++ [d]) in Heq.
  apply app_inj_tail in Heq as (<- & <-).
  destruct H as (_ & _ & Hok).
  destruct (Hok eq_refl) as (resp & _ & -> & -> & _).
  vm_compute. reflexivity.
Defined.

Lemma attempt_lines_after_resubmit evs1 evs2 :
  attempt_lines (evs1 ++ TimerFired 0 :: evs2) = attempt_lines evs2.
Proof. unfold attempt_lines. now rewrite foldl_app. Qed.

Lemma attempt_lines_no_resubmit evs :
  TimerFired 0 ∉ evs -> attempt_lines evs = omap header_buffer evs.
Proof.
  induction evs as [|ev evs IH] using rev_ind; intros Hn; [reflexivity|].
  rewrite attempt_lines_snoc, omap_app, IH
    by (intros Hin; apply Hn, elem_of_app; now left).
  destruct ev as [err code rnd|err|ptr size nmemb|size nmemb]; cbn;
    rewrite ?app_nil_r; try reflexivity.
  destruct (is_error err) eqn:E; [reflexivity|].
  apply is_error_false in E. subst err.
  exfalso. apply Hn, elem_of_app. right. apply list_elem_of_singleton.
  reflexivity.
Qed.

(** X13: the response handed to the promise holds the headers of the
    attempt that ended the request, and only those, in every execution:
    however many attempts were made, whether the earlier ones ended in a
    transport error or in a status of 500 or more, and whatever the status
    of the last one.  At every point the response of the request, and any
    value given to the promise, have the header map that [parse_header]
    builds, from the empty map, from [attempt_lines evs]; a request ended
    by a completion without error has given the promise exactly that
    value.  [attempt_lines] forgets everything up to the last timer
    callback without error, which is where the last attempt was submitted,
    and after it is the list of the header buffers in the order received. *)
Theorem response_headers_of_ending_attempt
    (calls : list BuilderCall) (evs : list Event) (r : RequestImpl) :
  exec (async_perform (configure calls)) evs = Some r ->
  (forall resp, response_ r = Some resp ->
     resp = mkResponse (parse_lines ∅ (attempt_lines evs)) []) /\
  (forall x, set_value x ∈ promise_ r ->
     x = Some (mkResponse (parse_lines ∅ (attempt_lines evs)) [])) /\
  (forall evs' code rnd,
     evs = evs' ++ [TransferDone 0 code rnd] -> pending r = false ->
     promise_ r
     = [set_value (Some (mkResponse (parse_lines ∅ (attempt_lines evs)) []))]) /\
  (forall evs1 evs2,
     attempt_lines (evs1 ++ TimerFired 0 :: evs2) = attempt_lines evs2) /\
  (forall evs2,
     TimerFired 0 ∉ evs2 -> attempt_lines evs2 = omap header_buffer evs2).
Proof.
  intros Hex.
  destruct (response_tracks_attempt calls evs r Hex) as (H1 & H2).
  split_and!; [exact H1 | exact H2 | | exact attempt_lines_after_resubmit
              | exact attempt_lines_no_resubmit].
  intros evs' code rnd Heq Hp.
  destruct (last_callback_resolves calls evs r Hex Hp)
    as (evs0 & ev & r1 & Heq0 & _ & _ & H).
  rewrite Heq in Heq0. apply app_inj_tail in Heq0 as (_ & <-).
  destruct H as (_ & _ & Hok).
  destruct (Hok eq_refl) as (resp & _ & Hpr & _).
  rewrite Hpr. f_equal. f_equal. apply H2. rewrite Hpr.
  apply list_elem_of_singleton. reflexivity.
Qed.

Lemma response_headers_of_ending_attempt_witness :
  let line (n : string) :=
    (list_ascii_of_string ("X-Try: " ++ n) ++ [CR; LF], 1, 10) in
  let hd (n : string) := HeaderData (line n).1.1 (line n).1.2 (line n).2 in
  let r0 := async_perform (configure [call_retry 3 true]) in
  let evs := [hd "1"%string; TransferDone 7 0 4; TimerFired 0;
              hd "2"%string; TransferDone 0 503 4; TimerFired 0;
              hd "3"%string; TransferDone 0 500 4] in
  exists r, exec r0 evs = Some r /\
    attempt_lines evs = [line "3"%string] /\
    promise_ r
    = [set_value (Some (mkResponse {[ "X-Try"%string := " 3"%string ]} []))].
Proof.
  cbn zeta. eexists. split; [vm_compute; reflexivity|].
  split; [vm_compute; reflexivity|].
  match goal with
  | |- promise_ ?r = _ =>
      assert (E : exec (async_perform (configure [call_retry 3 true]))
                    [HeaderData (list_ascii_of_string "X-Try: 1" ++ [CR; LF])
                                1 10;
                     TransferDone 7 0 4; TimerFired 0;
                     HeaderData (list_ascii_of_string "X-Try: 2" ++ [CR; LF])
                                1 10;
                     TransferDone 0 503 4; TimerFired 0;
                     HeaderData (list_ascii_of_string "X-Try: 3" ++ [CR; LF])
                                1 10;
                     TransferDone 0 500 4] = Some r)
        by (vm_compute; reflexivity)
  end.
  destruct (response_headers_of_ending_attempt [call_retry 3 true] _ _ E)
    as (_ & _ & Hv & _).
  match type of E with
  | exec _ ?l = _ =>
      rewrite (Hv (removelast l) 500 4 eq_refl ltac:(vm_compute; reflexivity))
  end.
  vm_compute. reflexivity.
Defined.
